(** * Union disambiguation in cattrs ([cattrs/disambiguators.py])

    A shallow embedding of the two disambiguation-function builders of
    [cattrs.disambiguators] and of the closures they return, followed by the
    properties of the builders and of the resolvers.

    - [create_uniq_field_dis_func] : the structural strategy, based on unique
      required attributes;
    - [create_type_name_field_dis_func] : the tag-field strategy, based on a key
      holding the type name.

    Python sets of attribute names are [gset string], input mappings are
    [gmap string pyobj], the [OrderedDict] of the structural strategy is an
    association list in insertion order, and a raised exception is the [Raise]
    branch of [result]. *)

From Stdlib Require Import ZArith List String Sorted Lia.
From stdpp Require Import base gmap sets list strings.

#[local] Set Warnings "-register-all,-clear-no-such-hyp".
#[local] Open Scope string_scope.
#[local] Open Scope list_scope.
#[local] Open Scope nat_scope.

(** ** Python values *)

(** The values an input can be made of (parsed JSON or YAML).  Only
    [PyDict] is an instance of [collections.abc.Mapping]; lists and dicts are
    the unhashable ones. *)
Inductive pyobj : Type :=
| PyNone
| PyBool (b : bool)
| PyInt (z : Z)
| PyStr (s : string)
| PyList (l : list pyobj)
| PyDict (m : gmap string pyobj).

(** [isinstance(data, Mapping)] *)
Definition isinstance_Mapping (data : pyobj) : bool :=
  match data with
  | PyDict _ => true
  | _ => false
  end.

(** Whether [hash(v)] returns; on a list or a dict it raises [TypeError]. *)
Definition hashable (v : pyobj) : bool :=
  match v with
  | PyList _ | PyDict _ => false
  | _ => true
  end.

(** ** attrs classes *)

(** An [attr.Attribute]: its name and its default, [None] standing for
    [attr.NOTHING] (the attribute is required). *)
Record Attribute : Type := mkAttribute {
  attr_name : string;
  attr_default : option pyobj
}.

(** A class as the builders see it: the object itself ([cls_id], what the
    resolver returns), its [__name__] and [attr.fields(cls)]. *)
Record PyClass : Type := mkClass {
  cls_id : nat;
  cls_name : string;
  cls_fields : list Attribute
}.

(** [default is NOTHING] *)
Definition is_NOTHING (d : option pyobj) : bool :=
  match d with
  | None => true
  | Some _ => false
  end.

(** [getattr(cl_fields, attr_name)] on the tuple returned by [attr.fields]. *)
Definition getattr (cl_fields : list Attribute) (n : string) : option Attribute :=
  List.find (fun at' => String.eqb (attr_name at') n) cl_fields.

(** [set(at.name for at in fields(cl))] *)
Definition attr_names (cl : PyClass) : gset string :=
  list_to_set (map attr_name (cls_fields cl)).

(** ** Exceptions *)

(** One constructor per [raise] of the module (all of them [ValueError], told
    apart by their message), and the exceptions the interpreter raises in
    the operations the module uses. *)
Inductive error : Type :=
| InsufficientCandidates              (* "At least two classes required." *)
| MultipleEmptySchemas                (* "At least two classes have no attributes." *)
| NoUniqueField (cl : PyClass)        (* "{} has no usable unique attributes." *)
| NoUniqueRequiredField (cl : PyClass)(* "{cl} has no usable non-default attributes." *)
| NotAMapping                         (* "Only input mappings are supported" *)
| MissingDiscriminator (key : string) (* "Cannot disambiguate union type if key ..." *)
| IndexError                          (* classes[0] on an empty tuple *)
| TypeError                           (* unhashable value tested against a dict *)
| AttributeError.                     (* getattr on a name that is no field *)

Inductive result (A : Type) : Type :=
| Ok (a : A)
| Raise (e : error).

Arguments Ok {A} a.
Arguments Raise {A} e.

#[global] Instance result_ret : MRet result := fun A a => Ok a.

#[global] Instance result_bind : MBind result := fun A B k r =>
  match r with
  | Ok a => k a
  | Raise e => Raise e
  end.

(** ** [list.sort(key=...)] *)

(** Python's sort is stable; it is modelled by the stable insertion sort on
    the keys ([sort_by_key_unique] below shows that being sorted and stable
    determines the result, whatever the algorithm). *)
Section Sort.
Context {A : Type} (key : A -> Z).

(** The order of the keys, as a relation on the elements. *)
Definition key_le (a b : A) : Prop := (key a <= key b)%Z.

Fixpoint insert_by_key (x : A) (l : list A) : list A :=
  match l with
  | [] => [x]
  | y :: l' => if (key x <=? key y)%Z then x :: y :: l' else y :: insert_by_key x l'
  end.

Fixpoint sort_by_key (l : list A) : list A :=
  match l with
  | [] => []
  | x :: l' => insert_by_key x (sort_by_key l')
  end.
End Sort.

(** ** The structural strategy *)

(** What the closure returned by [create_uniq_field_dis_func] holds. *)
Record uniq_resolver : Type := mkUniqResolver {
  uniq_attrs_dict : list (string * PyClass);
  fallback : option PyClass
}.

(** [uniq_attrs_dict[attr_name] = cl] on an [OrderedDict]: an existing key
    keeps its position, a new key goes last. *)
Fixpoint odict_set (k : string) (v : PyClass) (d : list (string * PyClass))
  : list (string * PyClass) :=
  match d with
  | [] => [(k, v)]
  | (k', v') :: d' =>
      if String.eqb k' k then (k', v) :: d' else (k', v') :: odict_set k v d'
  end.

(** The sort key [lambda c_a: -len(c_a[1])]. *)
Definition neg_len (c_a : PyClass * gset string) : Z := (- Z.of_nat (size c_a.2))%Z.

(** The order in which the loop meets the classes. *)
Definition processing_order (classes : list PyClass) : list PyClass :=
  map fst (sort_by_key neg_len (map (fun cl => (cl, attr_names cl)) classes)).

Section UniqFieldBuilder.
(** The order in which Python iterates over a set of strings depends on
    the hash seed of the process: it is a parameter of the model. *)
Variable set_iter : gset string -> list string.

(** [for attr_name in uniq: if getattr(...).default is NOTHING: break]
    with its [else: raise]. *)
Fixpoint pick_required (cl : PyClass) (names : list string) : result string :=
  match names with
  | [] => Raise (NoUniqueRequiredField cl)
  | attr_name :: rest =>
      match getattr (cls_fields cl) attr_name with
      | None => Raise AttributeError
      | Some at' =>
          if is_NOTHING (attr_default at') then Ok attr_name
          else pick_required cl rest
      end
  end.

(** The loop over [enumerate(cls_and_attrs)]; the tail of the list is
    [cls_and_attrs[i + 1:]]. *)
Fixpoint build_loop (cls_and_attrs : list (PyClass * gset string))
    (st : uniq_resolver) : result uniq_resolver :=
  match cls_and_attrs with
  | [] => Ok st
  | (cl, cl_reqs) :: other_classes =>
      match other_classes with
      | [] =>
          build_loop other_classes
            (mkUniqResolver (uniq_attrs_dict st) (Some cl))
      | _ :: _ =>
          let other_reqs := ⋃ (map snd other_classes) in
          let uniq := cl_reqs ∖ other_reqs in
          if bool_decide (uniq = ∅) then Raise (NoUniqueField cl)
          else
            attr_name ← pick_required cl (set_iter uniq);
            build_loop other_classes
              (mkUniqResolver (odict_set attr_name cl (uniq_attrs_dict st))
                              (fallback st))
      end
  end.

Definition create_uniq_field_dis_func (classes : list PyClass)
  : result uniq_resolver :=
  if (length classes <? 2)%nat then Raise InsufficientCandidates
  else
    let cls_and_attrs := map (fun cl => (cl, attr_names cl)) classes in
    if (1 <? length (List.filter (fun c_a => (size c_a.2 =? 0)%nat)
                                 cls_and_attrs))%nat
    then Raise MultipleEmptySchemas
    else
      build_loop (sort_by_key neg_len cls_and_attrs) (mkUniqResolver [] None).
End UniqFieldBuilder.

Module UniqField.
(** [for k, v in uniq_attrs_dict.items(): if k in data: return v] *)
Fixpoint scan (d : list (string * PyClass)) (data : gmap string pyobj)
  : option PyClass :=
  match d with
  | [] => None
  | (k, v) :: d' =>
      match data !! k with
      | Some _ => Some v
      | None => scan d' data
      end
  end.

Definition dis_func (r : uniq_resolver) (data : pyobj)
  : result (option PyClass) :=
  match data with
  | PyDict m =>
      match scan (uniq_attrs_dict r) m with
      | Some v => Ok (Some v)
      | None => Ok (fallback r)
      end
  | _ => Raise NotAMapping
  end.
End UniqField.

(** ** The tag-field strategy *)

(** What the closure returned by [create_type_name_field_dis_func] holds. *)
Record type_name_resolver : Type := mkTypeNameResolver {
  type_name_key : string;
  names_to_cl : gmap string PyClass;
  tn_fallback : PyClass
}.

(** [{c.__name__: c for c in classes}]: a later class replaces an earlier
    one of the same name. *)
Definition dict_of_names (classes : list PyClass) : gmap string PyClass :=
  fold_left (fun m c => <[cls_name c := c]> m) classes ∅.

Definition create_type_name_field_dis_func (classes : list PyClass)
    (key : string) : result type_name_resolver :=
  let names := dict_of_names classes in
  match classes with
  | [] => Raise IndexError
  | c0 :: _ => Ok (mkTypeNameResolver key names c0)
  end.

Module TypeNameField.
Definition dis_func (r : type_name_resolver) (data : pyobj)
  : result (option PyClass) :=
  match data with
  | PyDict m =>
      match m !! type_name_key r with
      | None => Raise (MissingDiscriminator (type_name_key r))
      | Some type_name =>
          if hashable type_name then
            match type_name with
            | PyStr s =>
                match names_to_cl r !! s with
                | None => Ok (Some (tn_fallback r))
                | Some c => Ok (Some c)
                end
            | _ => Ok (Some (tn_fallback r))
            end
          else Raise TypeError
      end
  | _ => Raise NotAMapping
  end.
End TypeNameField.

(** ** Vocabulary of the statements *)

(** The attribute [n] of [cl] has no default. *)
Definition required (cl : PyClass) (n : string) : bool :=
  match getattr (cls_fields cl) n with
  | Some at' => is_NOTHING (attr_default at')
  | None => false
  end.

(** The attribute [n] of [cl] has a default. *)
Definition has_default (cl : PyClass) (n : string) : bool :=
  match getattr (cls_fields cl) n with
  | Some at' => negb (is_NOTHING (attr_default at'))
  | None => false
  end.

(** The names of the attributes of [cl] that have no default. *)
Definition required_names (cl : PyClass) : gset string :=
  filter (fun n => required cl n = true) (attr_names cl).

(** All attributes of [cl] are required. *)
Definition all_required (cl : PyClass) : Prop :=
  Forall (fun at' => attr_default at' = None) (cls_fields cl).

(** The classes of the sequence that have no attribute. *)
Definition empty_classes (classes : list PyClass) : list PyClass :=
  List.filter (fun cl => bool_decide (attr_names cl = ∅)) classes.

(** The unique attributes of [cl] with respect to the classes after it. *)
Definition uniq_fields (cl : PyClass) (later : list PyClass) : gset string :=
  attr_names cl ∖ ⋃ (map attr_names later).

(** The last class of the sequence that bears the name [s]. *)
Definition last_named (s : string) (classes : list PyClass) : option PyClass :=
  last (List.filter (fun c => String.eqb (cls_name c) s) classes).

(** The sort key on the class alone. *)
Definition class_key (cl : PyClass) : Z := (- Z.of_nat (size (attr_names cl)))%Z.

(** The state of the loop before its first turn. *)
Definition empty_resolver : uniq_resolver := mkUniqResolver [] None.

(** A class with the set of its attribute names, as in [cls_and_attrs]. *)
Definition with_attrs (cl : PyClass) : PyClass * gset string :=
  (cl, attr_names cl).

(** [cl] has a unique attribute without default with respect to [later]. *)
Definition has_uniq_required (cl : PyClass) (later : list PyClass) : bool :=
  existsb (required cl) (elements (uniq_fields cl later)).

(** Every class of [pre] has a unique required attribute with respect to
    the classes after it in [pre ++ rest]. *)
Fixpoint discriminable_prefix (pre rest : list PyClass) : bool :=
  match pre with
  | [] => true
  | d :: pre' =>
      has_uniq_required d (pre' ++ rest) && discriminable_prefix pre' rest
  end.

(** Every class but the last has a unique required attribute with respect
    to the classes after it. *)
Fixpoint discriminable (cs : list PyClass) : bool :=
  match cs with
  | [] => true
  | c :: cs' =>
      match cs' with
      | [] => true
      | _ :: _ => has_uniq_required c cs' && discriminable cs'
      end
  end.

(** The entries the loop writes for the classes [cs], met in this order:
    one per class but the last, under a unique required attribute of it. *)
Inductive entries_of : list PyClass -> list (string * PyClass) -> Prop :=
| entries_last (c : PyClass) : entries_of [c] []
| entries_cons (c : PyClass) (cs : list PyClass) (u : string)
    (es : list (string * PyClass)) :
    cs <> [] ->
    u ∈ uniq_fields c cs ->
    required c u = true ->
    entries_of cs es ->
    entries_of (c :: cs) ((u, c) :: es).

(** The sets of the list are pairwise disjoint (by position). *)
Definition pairwise_disjoint (Fs : list (gset string)) : Prop :=
  forall (i j : nat) (F G : gset string),
    i <> j -> Fs !! i = Some F -> Fs !! j = Some G -> F ## G.

(** No required attribute of a class is an attribute of another class of
    the sequence (by position). *)
Definition required_apart (classes : list PyClass) : Prop :=
  forall (i j : nat) (c d : PyClass),
    i <> j -> classes !! i = Some c -> classes !! j = Some d ->
    required_names c ## attr_names d.

(** The same, by recursion on the sequence. *)
Fixpoint required_apart_rec (cs : list PyClass) : Prop :=
  match cs with
  | [] => True
  | c :: cs' =>
      Forall (fun d => required_names c ## attr_names d
                       /\ required_names d ## attr_names c) cs'
      /\ required_apart_rec cs'
  end.

(** Every class that has attributes has a required one. *)
Definition some_required (classes : list PyClass) : Prop :=
  Forall (fun c => attr_names c <> ∅ -> required_names c <> ∅) classes.

(** ** Classes of the examples *)

Definition Parent : PyClass := mkClass 1 "Parent" [mkAttribute "p" None].

Definition Child : PyClass :=
  mkClass 2 "Child" [mkAttribute "p" None; mkAttribute "c" None].

Definition Other : PyClass := mkClass 3 "Other" [mkAttribute "q" None].

Definition Empty1 : PyClass := mkClass 4 "Empty1" [].

Definition Empty2 : PyClass := mkClass 5 "Empty2" [].

(** An attrs class and a subclass that adds no attrs attribute, as in
    [test_structure_non_attr_subclass]. *)
Definition Base : PyClass := mkClass 6 "A" [mkAttribute "a" None].

Definition Sub : PyClass := mkClass 8 "B" [mkAttribute "a" None].

(** A class whose only attribute has a default. *)
Definition Opt : PyClass := mkClass 7 "Opt" [mkAttribute "x" (Some PyNone)].

(** Two classes that share their attributes with a third. *)
Definition Left : PyClass :=
  mkClass 9 "Left" [mkAttribute "a" None; mkAttribute "b" None].

Definition Middle : PyClass :=
  mkClass 10 "Middle" [mkAttribute "a" None; mkAttribute "z" (Some PyNone)].

Definition Right : PyClass :=
  mkClass 11 "Right" [mkAttribute "a" None; mkAttribute "b" None].

Definition A : PyClass := mkClass 12 "A" [mkAttribute "x" None].

Definition B : PyClass := mkClass 13 "B" [mkAttribute "y" None].

Definition C : PyClass := mkClass 14 "C" [mkAttribute "z" None].

(** A second class named [A], from another module. *)
Definition A' : PyClass := mkClass 15 "A" [mkAttribute "w" None].

Definition Opt2 : PyClass := mkClass 16 "Opt2" [mkAttribute "q" (Some PyNone)].

(** Three classes whose required attributes differ, one of them being an
    attribute with a default of another. *)
Definition Sx : PyClass :=
  mkClass 17 "Sx" [mkAttribute "x" None; mkAttribute "y" (Some PyNone)].

Definition Sy : PyClass := mkClass 18 "Sy" [mkAttribute "y" None].

Definition Sw : PyClass :=
  mkClass 19 "Sw" [mkAttribute "x" (Some PyNone); mkAttribute "w" None].

(** * Properties *)

(** ** The sort *)

Section SortFacts.
Context {A : Type} (key : A -> Z).

Lemma insert_by_key_perm (x : A) (l : list A) :
  insert_by_key key x l ≡ₚ x :: l.
Proof.
  induction l as [|y l IH]; simpl; [done|].
  destruct (key x <=? key y)%Z; [done|].
  rewrite IH. apply perm_swap.
Qed.

Lemma sort_by_key_perm (l : list A) : sort_by_key key l ≡ₚ l.
Proof.
  induction l as [|x l IH]; simpl; [done|].
  by rewrite insert_by_key_perm, IH.
Qed.

Lemma sort_by_key_length (l : list A) :
  length (sort_by_key key l) = length l.
Proof. by rewrite sort_by_key_perm. Qed.

Lemma insert_by_key_sorted (x : A) (l : list A) :
  StronglySorted (key_le key) l → StronglySorted (key_le key) (insert_by_key key x l).
Proof.
  induction 1 as [|y l Hl IH Hy]; simpl.
  - repeat constructor.
  - destruct (Z.leb_spec (key x) (key y)) as [Hxy|Hxy].
    + constructor; [by constructor|].
      constructor; [done|].
      eapply Forall_impl; [exact Hy|].
      intros z Hz. unfold key_le in *. lia.
    + constructor; [done|].
      rewrite insert_by_key_perm.
      constructor; [unfold key_le; lia | done].
Qed.

Lemma sort_by_key_sorted (l : list A) :
  StronglySorted (key_le key) (sort_by_key key l).
Proof.
  induction l as [|x l IH]; simpl; [constructor|].
  by apply insert_by_key_sorted.
Qed.

Lemma insert_by_key_filter (k : Z) (x : A) (l : list A) :
  filter (λ y, key y = k) (insert_by_key key x l)
  = filter (λ y, key y = k) (x :: l).
Proof.
  induction l as [|y l IH]; simpl; [done|].
  destruct (Z.leb_spec (key x) (key y)) as [Hxy|Hxy]; [done|].
  rewrite (filter_cons _ y), IH, !(filter_cons _ x), !(filter_cons _ y).
  repeat case_decide; try done; lia.
Qed.

(** Stability: the elements of one key keep the order of the input. *)
Lemma sort_by_key_stable (k : Z) (l : list A) :
  filter (λ y, key y = k) (sort_by_key key l) = filter (λ y, key y = k) l.
Proof.
  induction l as [|x l IH]; simpl; [done|].
  by rewrite insert_by_key_filter, !filter_cons, IH.
Qed.

Lemma filter_key_nil (l : list A) :
  (∀ k, filter (λ y, key y = k) l = []) → l = [].
Proof.
  destruct l as [|b l]; [done|].
  intros H. specialize (H (key b)).
  rewrite filter_cons_True in H by done. done.
Qed.

(** A sorted list is determined by the sub-lists of its keys: every
    stable sort returns what [sort_by_key] returns. *)
Lemma sorted_stable_unique (l1 l2 : list A) :
  StronglySorted (key_le key) l1 → StronglySorted (key_le key) l2 →
  (∀ k, filter (λ y, key y = k) l1 = filter (λ y, key y = k) l2) →
  l1 = l2.
Proof.
  intros Hs1. revert l2.
  induction Hs1 as [|a l1 Hs1 IH Ha]; intros l2 Hs2 Hf.
  - symmetry. apply filter_key_nil. intros k. by rewrite <- Hf.
  - destruct Hs2 as [|b l2 Hs2 Hb].
    { exfalso. specialize (Hf (key a)).
      rewrite filter_cons_True in Hf by done. done. }
    assert (key a = key b) as Hab.
    { assert (a ∈ b :: l2) as Hin1.
      { eapply (list_elem_of_filter (λ y, key y = key a)).
        rewrite <- Hf, filter_cons_True by done. left. }
      assert (b ∈ a :: l1) as Hin2.
      { eapply (list_elem_of_filter (λ y, key y = key b)).
        rewrite Hf, filter_cons_True by done. left. }
      apply elem_of_cons in Hin1 as [->|Hin1]; [done|].
      apply elem_of_cons in Hin2 as [->|Hin2]; [done|].
      rewrite Forall_forall in Ha, Hb.
      apply Ha in Hin2. apply Hb in Hin1. unfold key_le in *. lia. }
    assert (a = b) as ->.
    { specialize (Hf (key a)).
      rewrite filter_cons_True in Hf by done.
      rewrite filter_cons_True in Hf by done. congruence. }
    f_equal. apply IH; [done|].
    intros k. specialize (Hf k). rewrite !filter_cons in Hf.
    case_decide; congruence.
Qed.

Lemma sort_by_key_unique (l l' : list A) :
  StronglySorted (key_le key) l' →
  (∀ k, filter (λ y, key y = k) l' = filter (λ y, key y = k) l) →
  l' = sort_by_key key l.
Proof.
  intros Hs Hf. apply sorted_stable_unique; [done|apply sort_by_key_sorted|].
  intros k. by rewrite Hf, sort_by_key_stable.
Qed.
End SortFacts.

(** ** Attributes *)

Lemma getattr_Some_name (fs : list Attribute) (n : string) (a : Attribute) :
  getattr fs n = Some a → attr_name a = n ∧ a ∈ fs.
Proof.
  unfold getattr. intros H. apply find_some in H as [Hin Heq].
  apply String.eqb_eq in Heq. split; [done|]. by apply list_elem_of_In.
Qed.

Lemma getattr_is_Some (cl : PyClass) (n : string) :
  n ∈ attr_names cl → is_Some (getattr (cls_fields cl) n).
Proof.
  unfold attr_names, getattr. rewrite elem_of_list_to_set.
  induction (cls_fields cl) as [|a fs IH]; simpl.
  - by intros ?%elem_of_nil.
  - intros [<-|Hin]%elem_of_cons.
    + by rewrite String.eqb_refl.
    + destruct (String.eqb (attr_name a) n); [done|]. by apply IH.
Qed.

Lemma required_in_attr_names (cl : PyClass) (n : string) :
  required cl n = true → n ∈ attr_names cl.
Proof.
  unfold required. destruct (getattr (cls_fields cl) n) as [a|] eqn:E; [|done].
  intros _. apply getattr_Some_name in E as [<- Hin].
  unfold attr_names. rewrite elem_of_list_to_set.
  apply list_elem_of_fmap. by exists a.
Qed.

Lemma required_not_default (cl : PyClass) (n : string) :
  required cl n = true → has_default cl n = true → False.
Proof.
  unfold required, has_default.
  destruct (getattr (cls_fields cl) n) as [a|]; [|done].
  by destruct (is_NOTHING (attr_default a)).
Qed.

Lemma all_required_required (cl : PyClass) (n : string) :
  all_required cl → n ∈ attr_names cl → required cl n = true.
Proof.
  intros Hall Hn. unfold required.
  destruct (getattr_is_Some cl n Hn) as [a Ha]. rewrite Ha.
  apply getattr_Some_name in Ha as [_ Hin].
  unfold all_required in Hall. rewrite Forall_forall in Hall.
  by rewrite (Hall a Hin).
Qed.

Lemma has_uniq_required_spec (cl : PyClass) (later : list PyClass) :
  has_uniq_required cl later = true
  ↔ ∃ a, a ∈ uniq_fields cl later ∧ required cl a = true.
Proof.
  unfold has_uniq_required. rewrite existsb_exists. split.
  - intros (a & Hin & Hr). exists a. split; [|done].
    apply elem_of_elements. by apply list_elem_of_In.
  - intros (a & Hin & Hr). exists a. split; [|done].
    apply list_elem_of_In. by apply elem_of_elements.
Qed.

(** The loop that picks the attribute, on names that are attributes of the
    class: it stops at a required one, or raises after finding that all
    have a default. *)
Lemma pick_required_cases (cl : PyClass) (names : list string) :
  (∀ n, n ∈ names → n ∈ attr_names cl) →
  (∃ a, pick_required cl names = Ok a ∧ a ∈ names ∧ required cl a = true)
  ∨ (pick_required cl names = Raise (NoUniqueRequiredField cl)
     ∧ ∀ n, n ∈ names → has_default cl n = true).
Proof.
  induction names as [|n names IH]; intros Hsub; simpl.
  - right. split; [done|]. by intros n ?%elem_of_nil.
  - destruct (getattr_is_Some cl n) as [a Ha]; [apply Hsub; left|].
    rewrite Ha. destruct (is_NOTHING (attr_default a)) eqn:Hd.
    + left. exists n. split; [done|]. split; [left|].
      unfold required. by rewrite Ha.
    + destruct IH as [(b & Hb & Hin & Hr)|[Hb Hall]].
      * intros m Hm. apply Hsub. by right.
      * left. exists b. split; [done|]. split; [by right|done].
      * right. split; [done|]. intros m [->|Hm]%elem_of_cons; [|by apply Hall].
        unfold has_default. by rewrite Ha, Hd.
Qed.

(** ** The loop of the structural builder *)

Lemma map_snd_with_attrs (cs : list PyClass) :
  map snd (map with_attrs cs) = map attr_names cs.
Proof. induction cs as [|c cs IH]; simpl; [done|]. by rewrite IH. Qed.

Lemma map_fst_with_attrs (cs : list PyClass) :
  map fst (map with_attrs cs) = cs.
Proof. induction cs as [|c cs IH]; simpl; [done|]. by rewrite IH. Qed.

Lemma odict_set_fresh (k : string) (v : PyClass) (d : list (string * PyClass)) :
  k ∉ map fst d → odict_set k v d = d ++ [(k, v)].
Proof.
  induction d as [|[k' v'] d IH]; simpl; [done|].
  intros Hk. apply not_elem_of_cons in Hk as [Hne Hk].
  destruct (String.eqb_spec k' k) as [->|_]; [done|].
  by rewrite IH.
Qed.

Lemma entries_of_values (cs : list PyClass) (es : list (string * PyClass)) :
  entries_of cs es → ∀ k v, (k, v) ∈ es → v ∈ cs.
Proof.
  induction 1 as [c|c cs u es Hne Hu Hr Hes IH]; intros k v Hin.
  - by apply elem_of_nil in Hin.
  - apply elem_of_cons in Hin as [[= -> ->]|Hin]; [left|].
    right. by eapply IH.
Qed.

Lemma entries_of_nonempty (cs : list PyClass) (es : list (string * PyClass)) :
  entries_of cs es → cs ≠ [].
Proof. by destruct 1. Qed.

Section BuildLoop.
Variable set_iter : gset string → list string.
Hypothesis set_iter_perm : ∀ X, set_iter X ≡ₚ elements X.

Lemma set_iter_elem (X : gset string) (n : string) :
  n ∈ set_iter X ↔ n ∈ X.
Proof. by rewrite set_iter_perm, elem_of_elements. Qed.

(** One turn of the loop on a class that is not the last. *)
Lemma build_loop_step (c : PyClass) (cs : list PyClass) (st : uniq_resolver) :
  cs ≠ [] →
  build_loop set_iter (map with_attrs (c :: cs)) st =
    if bool_decide (uniq_fields c cs = ∅) then Raise (NoUniqueField c)
    else
      attr_name ← pick_required c (set_iter (uniq_fields c cs));
      build_loop set_iter (map with_attrs cs)
        (mkUniqResolver (odict_set attr_name c (uniq_attrs_dict st))
                        (fallback st)).
Proof.
  intros Hne. destruct cs as [|d cs]; [done|].
  unfold uniq_fields. rewrite <- (map_snd_with_attrs (d :: cs)).
  reflexivity.
Qed.

(** The turn of the last class. *)
Lemma build_loop_last (c : PyClass) (st : uniq_resolver) :
  build_loop set_iter (map with_attrs [c]) st
  = Ok (mkUniqResolver (uniq_attrs_dict st) (Some c)).
Proof. reflexivity. Qed.

Lemma pick_required_uniq (c : PyClass) (cs : list PyClass) :
  (∃ a, pick_required c (set_iter (uniq_fields c cs)) = Ok a
        ∧ a ∈ uniq_fields c cs ∧ required c a = true)
  ∨ (pick_required c (set_iter (uniq_fields c cs))
       = Raise (NoUniqueRequiredField c)
     ∧ ∀ n, n ∈ uniq_fields c cs → has_default c n = true).
Proof.
  destruct (pick_required_cases c (set_iter (uniq_fields c cs)))
    as [(a & Ha & Hin & Hr)|[Hp Hall]].
  - intros n Hn. apply set_iter_elem in Hn. unfold uniq_fields in Hn.
    set_solver.
  - left. exists a. by rewrite <- set_iter_elem.
  - right. split; [done|]. intros n Hn. apply Hall. by apply set_iter_elem.
Qed.

(** What a run of the loop that returns has built. *)
Lemma build_loop_inv (cs : list PyClass) (st r : uniq_resolver) :
  cs ≠ [] →
  (∀ k, k ∈ map fst (uniq_attrs_dict st) → k ∉ ⋃ (map attr_names cs)) →
  build_loop set_iter (map with_attrs cs) st = Ok r →
  ∃ es, entries_of cs es
        ∧ uniq_attrs_dict r = uniq_attrs_dict st ++ es
        ∧ fallback r = last cs.
Proof.
  revert st. induction cs as [|c cs IH]; intros st Hne Hfresh Hb; [done|].
  destruct (decide (cs = [])) as [->|Hcs].
  - rewrite build_loop_last in Hb. injection Hb as <-.
    exists []. simpl. rewrite app_nil_r. repeat split. constructor.
  - rewrite build_loop_step in Hb by done.
    case_bool_decide as Hu; [done|].
    destruct (pick_required_uniq c cs) as [(a & Ha & Hin & Hr)|[Hp _]];
      [|by rewrite Hp in Hb].
    rewrite Ha in Hb. simpl in Hb.
    assert (a ∉ map fst (uniq_attrs_dict st)) as Hafresh.
    { intros Hk. apply Hfresh in Hk. apply Hk. simpl.
      unfold uniq_fields in Hin. set_solver. }
    rewrite odict_set_fresh in Hb by done.
    apply IH in Hb as (es & Hes & Htab & Hfb); [|done|].
    + exists ((a, c) :: es). split; [by constructor|].
      simpl in *. split; [by rewrite Htab, <- app_assoc|].
      rewrite Hfb. by destruct cs.
    + simpl. intros k Hk. rewrite map_app in Hk.
      apply elem_of_app in Hk as [Hk|Hk].
      * apply Hfresh in Hk. simpl in Hk. set_solver.
      * simpl in Hk. apply list_elem_of_singleton in Hk as ->.
        unfold uniq_fields in Hin. set_solver.
Qed.

(** The loop returns when every class but the last has a unique required
    attribute. *)
Lemma build_loop_success (cs : list PyClass) (st : uniq_resolver) :
  cs ≠ [] → discriminable cs = true →
  ∃ r, build_loop set_iter (map with_attrs cs) st = Ok r.
Proof.
  revert st. induction cs as [|c cs IH]; intros st Hne Hd; [done|].
  destruct (decide (cs = [])) as [->|Hcs].
  - rewrite build_loop_last. by eexists.
  - rewrite build_loop_step by done.
    assert (has_uniq_required c cs = true ∧ discriminable cs = true)
      as [Hc Hd'].
    { simpl in Hd. destruct cs; [done|]. by apply andb_prop in Hd. }
    apply has_uniq_required_spec in Hc as (a & Hin & Hr).
    case_bool_decide as Hu; [set_solver|].
    destruct (pick_required_uniq c cs) as [(b & Hb & _ & _)|[_ Hall]].
    + rewrite Hb. simpl. by apply IH.
    + exfalso. eapply required_not_default; [exact Hr|]. by apply Hall.
Qed.

(** The loop raises at the first class, not the last, whose unique
    attributes all have a default. *)
Lemma build_loop_fail_at (pre : list PyClass) (c : PyClass)
    (post : list PyClass) (st : uniq_resolver) :
  post ≠ [] →
  discriminable_prefix pre (c :: post) = true →
  uniq_fields c post ≠ ∅ →
  (∀ n, n ∈ uniq_fields c post → has_default c n = true) →
  build_loop set_iter (map with_attrs (pre ++ c :: post)) st
  = Raise (NoUniqueRequiredField c).
Proof.
  intros Hpost Hpre Hne Hall. revert st Hpre.
  induction pre as [|d pre IH]; intros st Hpre.
  - simpl app. rewrite build_loop_step by done.
    case_bool_decide; [done|].
    destruct (pick_required_uniq c post) as [(a & _ & Hin & Hr)|[Hp _]].
    + exfalso. eapply required_not_default; [exact Hr|]. by apply Hall.
    + by rewrite Hp.
  - simpl in Hpre. apply andb_prop in Hpre as [Hd Hpre].
    change ((d :: pre) ++ c :: post) with (d :: (pre ++ c :: post)).
    rewrite build_loop_step by (by destruct pre).
    apply has_uniq_required_spec in Hd as (a & Hin & Hr).
    case_bool_decide as Hu; [set_solver|].
    destruct (pick_required_uniq d (pre ++ c :: post))
      as [(b & Hb & _ & _)|[_ Hall']].
    + rewrite Hb. simpl. by apply IH.
    + exfalso. eapply required_not_default; [exact Hr|]. by apply Hall'.
Qed.

(** The loop raises nothing but the two errors on unique attributes. *)
Lemma build_loop_raise_kind (cs : list PyClass) (st : uniq_resolver)
    (e : error) :
  build_loop set_iter (map with_attrs cs) st = Raise e →
  ∃ c, c ∈ cs ∧ (e = NoUniqueField c ∨ e = NoUniqueRequiredField c).
Proof.
  revert st. induction cs as [|c cs IH]; intros st Hb; [done|].
  destruct (decide (cs = [])) as [->|Hcs]; [done|].
  rewrite build_loop_step in Hb by done.
  case_bool_decide as Hu.
  - injection Hb as <-. exists c. split; [left|by left].
  - destruct (pick_required_uniq c cs) as [(b & Hb' & _ & _)|[Hp _]].
    + rewrite Hb' in Hb. simpl in Hb.
      apply IH in Hb as (c' & Hin & He). exists c'. split; [by right|done].
    + rewrite Hp in Hb. injection Hb as <-.
      exists c. split; [left|by right].
Qed.
End BuildLoop.

(** ** The order of the loop *)

Lemma insert_by_key_map {A B : Type} (key : B → Z) (f : A → B) (x : A)
    (l : list A) :
  insert_by_key key (f x) (map f l) = map f (insert_by_key (key ∘ f) x l).
Proof.
  induction l as [|y l IH]; simpl; [done|].
  destruct (key (f x) <=? key (f y))%Z; [done|]. by rewrite IH.
Qed.

Lemma sort_by_key_map {A B : Type} (key : B → Z) (f : A → B) (l : list A) :
  sort_by_key key (map f l) = map f (sort_by_key (key ∘ f) l).
Proof.
  induction l as [|x l IH]; simpl; [done|].
  by rewrite IH, insert_by_key_map.
Qed.

Lemma processing_order_eq (classes : list PyClass) :
  processing_order classes = sort_by_key class_key classes.
Proof.
  unfold processing_order.
  change (map (λ cl, (cl, attr_names cl)) classes) with (map with_attrs classes).
  by rewrite sort_by_key_map, map_fst_with_attrs.
Qed.

Lemma sorted_cls_and_attrs (classes : list PyClass) :
  sort_by_key neg_len (map with_attrs classes)
  = map with_attrs (processing_order classes).
Proof. by rewrite processing_order_eq, sort_by_key_map. Qed.

Lemma processing_order_perm (classes : list PyClass) :
  processing_order classes ≡ₚ classes.
Proof. rewrite processing_order_eq. apply sort_by_key_perm. Qed.

Lemma processing_order_length (classes : list PyClass) :
  length (processing_order classes) = length classes.
Proof. by rewrite processing_order_perm. Qed.

Lemma StronglySorted_lookup {A : Type} (R : A → A → Prop) (l : list A)
    (i j : nat) (a b : A) :
  StronglySorted R l → l !! i = Some a → l !! j = Some b → i < j → R a b.
Proof.
  intros Hs. revert i j. induction Hs as [|x l Hs IH Hx]; intros i j Hi Hj Hij.
  - done.
  - destruct j as [|j]; [lia|]. simpl in Hj. destruct i as [|i].
    + injection Hi as ->. rewrite Forall_forall in Hx. apply Hx.
      by eapply list_elem_of_lookup_2.
    + simpl in Hi. apply (IH i j); [done..|lia].
Qed.

Lemma empty_count (classes : list PyClass) :
  List.filter (λ c_a : PyClass * gset string, (size c_a.2 =? 0)%nat)
              (map with_attrs classes)
  = map with_attrs (empty_classes classes).
Proof.
  unfold empty_classes. induction classes as [|c cs IH]; simpl; [done|].
  rewrite IH. destruct (Nat.eqb_spec (size (attr_names c)) 0) as [H0|H0].
  - apply size_empty_iff in H0. apply leibniz_equiv in H0.
    by rewrite bool_decide_eq_true_2.
  - rewrite bool_decide_eq_false_2; [done|].
    intros He. apply H0. by rewrite He, size_empty.
Qed.

(** The builder, with its two guards and its loop over the processing
    order. *)
Lemma create_uniq_field_dis_func_unfold (set_iter : gset string → list string)
    (classes : list PyClass) :
  create_uniq_field_dis_func set_iter classes =
    if (length classes <? 2)%nat then Raise InsufficientCandidates
    else if (1 <? length (empty_classes classes))%nat
         then Raise MultipleEmptySchemas
         else build_loop set_iter (map with_attrs (processing_order classes))
                empty_resolver.
Proof.
  unfold create_uniq_field_dis_func.
  change (map (λ cl, (cl, attr_names cl)) classes) with (map with_attrs classes).
  by rewrite empty_count, length_map, sorted_cls_and_attrs.
Qed.

Lemma empty_classes_perm (cs1 cs2 : list PyClass) :
  cs1 ≡ₚ cs2 → length (empty_classes cs1) = length (empty_classes cs2).
Proof.
  unfold empty_classes.
  induction 1; simpl; repeat case_match; simpl; congruence.
Qed.

(** ** Claims on the order of the loop and on its guards *)

(** C3. The loop of the structural builder meets the classes by descending
    number of attributes: a class met earlier never has fewer attributes
    than one met later, a class with strictly more attributes is met
    strictly earlier, and the classes of one size are met in the order of
    the input (the sort is stable).  The processing order is a permutation
    of the input, and it is the list the builder runs its loop over. *)
Theorem processing_order_descending_stable
    (set_iter : gset string → list string) (classes : list PyClass)
    (i j : nat) (a b : PyClass) :
  processing_order classes !! i = Some a →
  processing_order classes !! j = Some b →
  processing_order classes ≡ₚ classes
  ∧ (i < j → size (attr_names b) ≤ size (attr_names a))
  ∧ (size (attr_names b) < size (attr_names a) → i < j)
  ∧ (∀ n, filter (λ c, size (attr_names c) = n) (processing_order classes)
          = filter (λ c, size (attr_names c) = n) classes)
  ∧ create_uniq_field_dis_func set_iter classes =
      (if (length classes <? 2)%nat then Raise InsufficientCandidates
       else if (1 <? length (empty_classes classes))%nat
            then Raise MultipleEmptySchemas
            else build_loop set_iter
                   (map with_attrs (processing_order classes)) empty_resolver).
Proof.
  intros Hi Hj.
  assert (∀ i j a b, processing_order classes !! i = Some a →
            processing_order classes !! j = Some b → i < j →
            size (attr_names b) ≤ size (attr_names a)) as Hmono.
  { clear. intros i j a b Hi Hj Hij.
    rewrite processing_order_eq in Hi, Hj.
    pose proof (StronglySorted_lookup _ _ i j a b
                  (sort_by_key_sorted class_key classes) Hi Hj Hij) as Hle.
    unfold key_le, class_key in Hle. lia. }
  split; [apply processing_order_perm|].
  split; [by apply (Hmono i j a b)|].
  split.
  { intros Hlt. destruct (decide (i < j)) as [|Hge]; [done|].
    destruct (decide (i = j)) as [->|Hne].
    - rewrite Hi in Hj. injection Hj as ->. lia.
    - assert (j < i) as Hji by lia.
      pose proof (Hmono j i b a Hj Hi Hji). lia. }
  split; [|apply create_uniq_field_dis_func_unfold].
  intros n. rewrite processing_order_eq.
  transitivity (filter (λ c, class_key c = (- Z.of_nat n)%Z)
                  (sort_by_key class_key classes)).
  { apply list_filter_iff. intros c. unfold class_key. lia. }
  rewrite sort_by_key_stable.
  apply list_filter_iff. intros c. unfold class_key. lia.
Qed.

Lemma processing_order_descending_stable_witness :
  processing_order [Parent; Child; Other] !! 1 = Some Parent
  ∧ processing_order [Parent; Child; Other] !! 2 = Some Other
  ∧ processing_order [Parent; Child; Other] ≡ₚ [Parent; Child; Other]
  ∧ (1 < 2 → size (attr_names Other) ≤ size (attr_names Parent)).
Proof.
  split; [reflexivity|]. split; [reflexivity|].
  pose proof (processing_order_descending_stable elements
                [Parent; Child; Other] 1 2 Parent Other eq_refl eq_refl)
    as (Hp & Hle & _).
  split; [exact Hp|exact Hle].
Defined.

Lemma pick_required_raise (cl : PyClass) (names : list string) (e : error) :
  pick_required cl names = Raise e →
  e = NoUniqueRequiredField cl ∨ e = AttributeError.
Proof.
  induction names as [|n names IH]; simpl.
  - intros [= <-]. by left.
  - destruct (getattr (cls_fields cl) n) as [a|]; [|intros [= <-]; by right].
    destruct (is_NOTHING (attr_default a)); [done|apply IH].
Qed.

Lemma build_loop_raise_any (set_iter : gset string → list string)
    (L : list (PyClass * gset string)) (st : uniq_resolver) (e : error) :
  build_loop set_iter L st = Raise e →
  (∃ c, e = NoUniqueField c) ∨ (∃ c, e = NoUniqueRequiredField c)
  ∨ e = AttributeError.
Proof.
  revert st. induction L as [|[c F] L IH]; intros st; [done|].
  destruct L as [|d L]; [done|].
  cbn [build_loop]. case_bool_decide.
  - intros [= <-]. left. by exists c.
  - destruct (pick_required c _) as [a|e'] eqn:Hp.
    + apply IH.
    + intros [= <-]. apply pick_required_raise in Hp as [->| ->].
      * right. left. by exists c.
      * by right; right.
Qed.

(** C6. The structural builder raises "At least two classes have no
    attributes" exactly on the sequences in which more than one class has
    an empty set of attributes. *)
Theorem multiple_empty_schemas_iff (set_iter : gset string → list string)
    (classes : list PyClass) :
  (1 < length (empty_classes classes) →
   create_uniq_field_dis_func set_iter classes = Raise MultipleEmptySchemas)
  ∧ (length (empty_classes classes) ≤ 1 →
     create_uniq_field_dis_func set_iter classes ≠ Raise MultipleEmptySchemas).
Proof.
  rewrite create_uniq_field_dis_func_unfold. split.
  - intros Hm.
    assert (length (empty_classes classes) ≤ length classes) as Hl
      by apply filter_length_le.
    destruct (Nat.ltb_spec (length classes) 2); [lia|].
    by destruct (Nat.ltb_spec 1 (length (empty_classes classes))); [|lia].
  - intros Hm. destruct (Nat.ltb_spec (length classes) 2); [done|].
    destruct (Nat.ltb_spec 1 (length (empty_classes classes))); [lia|].
    intros Hb. apply build_loop_raise_any in Hb as [[c Hc]|[[c Hc]|Hc]]; done.
Qed.

Lemma multiple_empty_schemas_iff_witness :
  1 < length (empty_classes [Empty1; Parent; Empty2])
  ∧ create_uniq_field_dis_func elements [Empty1; Parent; Empty2]
    = Raise MultipleEmptySchemas
  ∧ length (empty_classes [Parent; Empty1]) ≤ 1
  ∧ create_uniq_field_dis_func elements [Parent; Empty1]
    ≠ Raise MultipleEmptySchemas.
Proof.
  assert (1 < length (empty_classes [Empty1; Parent; Empty2])) as H1
    by (vm_compute; lia).
  assert (length (empty_classes [Parent; Empty1]) ≤ 1) as H2
    by (vm_compute; lia).
  split; [exact H1|]. split.
  - exact (proj1 (multiple_empty_schemas_iff elements _) H1).
  - split; [exact H2|].
    exact (proj2 (multiple_empty_schemas_iff elements _) H2).
Defined.

(** ** Claims on the resolvers *)

(** C7. A tag-field resolver applied to a mapping that lacks the
    configured key raises "Cannot disambiguate union type if key ... is not
    in the mapping"; it returns no class, the fallback included. *)
Theorem missing_discriminator (classes : list PyClass) (key : string)
    (r : type_name_resolver) (m : gmap string pyobj) :
  create_type_name_field_dis_func classes key = Ok r →
  m !! key = None →
  TypeNameField.dis_func r (PyDict m) = Raise (MissingDiscriminator key).
Proof.
  unfold create_type_name_field_dis_func.
  destruct classes as [|c0 cs]; [done|].
  intros [= <-] Hm. simpl. by rewrite Hm.
Qed.

Lemma missing_discriminator_witness :
  TypeNameField.dis_func
    (mkTypeNameResolver "type" (dict_of_names [A; B; C]) A)
    (PyDict {[ "kind" := PyStr "B" ]})
  = Raise (MissingDiscriminator "type").
Proof.
  apply (missing_discriminator [A; B; C] "type"); reflexivity.
Defined.

(** C8. A resolver of either strategy raises "Only input mappings are
    supported" on the inputs that are no mapping, and on no other input. *)
Theorem not_a_mapping_iff :
  (∀ (set_iter : gset string → list string) (classes : list PyClass)
     (r : uniq_resolver) (data : pyobj),
      create_uniq_field_dis_func set_iter classes = Ok r →
      (isinstance_Mapping data = false →
       UniqField.dis_func r data = Raise NotAMapping)
      ∧ (isinstance_Mapping data = true →
         UniqField.dis_func r data ≠ Raise NotAMapping))
  ∧ (∀ (classes : list PyClass) (key : string) (r : type_name_resolver)
       (data : pyobj),
      create_type_name_field_dis_func classes key = Ok r →
      (isinstance_Mapping data = false →
       TypeNameField.dis_func r data = Raise NotAMapping)
      ∧ (isinstance_Mapping data = true →
         TypeNameField.dis_func r data ≠ Raise NotAMapping)).
Proof.
  split.
  - intros set_iter classes r data _. split.
    + by destruct data.
    + destruct data; try done. intros _. simpl.
      by destruct (UniqField.scan _ _).
  - intros classes key r data _. split.
    + by destruct data.
    + destruct data as [| | | | |m]; try done. intros _. simpl.
      destruct (m !! type_name_key r) as [v|]; [|done].
      destruct (hashable v); [|done].
      destruct v; try done. by destruct (names_to_cl r !! s).
Qed.

Lemma not_a_mapping_iff_witness :
  UniqField.dis_func (mkUniqResolver [("c", Child)] (Some Parent))
    (PyList [PyInt 1; PyInt 2]) = Raise NotAMapping
  ∧ UniqField.dis_func (mkUniqResolver [("c", Child)] (Some Parent))
      (PyDict {[ "p" := PyInt 1 ]}) ≠ Raise NotAMapping
  ∧ TypeNameField.dis_func
      (mkTypeNameResolver "type" (dict_of_names [A; B]) A)
      (PyList [PyStr "type"]) = Raise NotAMapping
  ∧ TypeNameField.dis_func
      (mkTypeNameResolver "type" (dict_of_names [A; B]) A)
      (PyDict ∅) ≠ Raise NotAMapping.
Proof.
  destruct not_a_mapping_iff as [Hu Ht].
  split; [|split; [|split]].
  - apply (Hu elements [Parent; Child]); reflexivity.
  - apply (Hu elements [Parent; Child]); reflexivity.
  - apply (Ht [A; B] "type"); reflexivity.
  - apply (Ht [A; B] "type"); reflexivity.
Defined.

Lemma odict_set_values (k : string) (v : PyClass) (d : list (string * PyClass))
    (w : PyClass) :
  w ∈ map snd (odict_set k v d) → w = v ∨ w ∈ map snd d.
Proof.
  induction d as [|[k' v'] d IH]; simpl.
  - intros ?%list_elem_of_singleton. by left.
  - destruct (String.eqb k' k); simpl.
    + intros [->|Hw]%elem_of_cons; [by left|]. right. by right.
    + intros [->|Hw]%elem_of_cons; [right; left|].
      destruct (IH Hw) as [->|Hin]; [by left|]. right. by right.
Qed.

(** The fallback and the classes of the table, when the loop returns. *)
Lemma build_loop_fallback_values (set_iter : gset string → list string)
    (L : list (PyClass * gset string)) (st r : uniq_resolver) :
  L ≠ [] →
  build_loop set_iter L st = Ok r →
  fallback r = last (map fst L)
  ∧ ∀ w, w ∈ map snd (uniq_attrs_dict r) →
         w ∈ map snd (uniq_attrs_dict st) ∨ w ∈ map fst L.
Proof.
  revert st. induction L as [|[c F] L IH]; intros st Hne; [done|].
  destruct L as [|d L].
  - intros [= <-]. simpl. split; [done|]. intros w Hw. by left.
  - cbn [build_loop]. case_bool_decide; [done|].
    destruct (pick_required c _) as [a|e]; [|done].
    intros Hb. apply IH in Hb as [Hf Hv]; [|done]. split; [done|].
    intros w Hw. apply Hv in Hw as [Hw|Hw].
    + cbn [uniq_attrs_dict] in Hw.
      apply odict_set_values in Hw as [->|Hw]; [|by left].
      right. left.
    + right. by right.
Qed.

Lemma scan_value (d : list (string * PyClass)) (m : gmap string pyobj)
    (v : PyClass) :
  UniqField.scan d m = Some v → v ∈ map snd d.
Proof.
  induction d as [|[k w] d IH]; simpl; [done|].
  destruct (m !! k).
  - intros [= ->]. left.
  - intros Hs. right. by apply IH.
Qed.

(** C9. When the structural builder returns, the fallback is the last
    class of the processing order, which is installed without a look at its
    attributes; the resolver then returns a class of the sequence on every
    mapping, never [None]. *)
Theorem fallback_always_defined (set_iter : gset string → list string)
    (classes : list PyClass) (r : uniq_resolver) :
  create_uniq_field_dis_func set_iter classes = Ok r →
  2 ≤ length classes
  ∧ (∃ c, last (processing_order classes) = Some c ∧ fallback r = Some c)
  ∧ ∀ m, ∃ c, c ∈ classes ∧ UniqField.dis_func r (PyDict m) = Ok (Some c).
Proof.
  rewrite create_uniq_field_dis_func_unfold.
  destruct (Nat.ltb_spec (length classes) 2) as [|Hlen]; [done|].
  destruct (Nat.ltb_spec 1 (length (empty_classes classes))); [done|].
  intros Hb. split; [done|].
  assert (processing_order classes ≠ []) as Hne.
  { intros He. apply (f_equal length) in He.
    rewrite processing_order_length in He. simpl in He. lia. }
  apply build_loop_fallback_values in Hb as [Hf Hv].
  2:{ intros He. apply Hne. apply (f_equal (map fst)) in He.
      by rewrite map_fst_with_attrs in He. }
  rewrite map_fst_with_attrs in Hf, Hv.
  destruct (last (processing_order classes)) as [c|] eqn:Hlast.
  2:{ apply last_None in Hlast. done. }
  split; [by exists c|].
  assert (∀ w, w ∈ processing_order classes → w ∈ classes) as Hin.
  { intros w. by rewrite processing_order_perm. }
  intros m. simpl.
  destruct (UniqField.scan (uniq_attrs_dict r) m) as [v|] eqn:Hs.
  - exists v. split; [|done]. apply scan_value in Hs.
    apply Hv in Hs as [Hs|Hs]; [by apply elem_of_nil in Hs|by apply Hin].
  - exists c. split; [|by rewrite Hf].
    apply Hin. apply last_Some in Hlast as [l' ->].
    apply elem_of_app. right. left.
Qed.

Lemma fallback_always_defined_witness :
  2 ≤ length [Parent; Opt]
  ∧ (∃ c, last (processing_order [Parent; Opt]) = Some c
          ∧ fallback (mkUniqResolver [("p", Parent)] (Some Opt)) = Some c)
  ∧ ∀ m, ∃ c, c ∈ [Parent; Opt]
      ∧ UniqField.dis_func (mkUniqResolver [("p", Parent)] (Some Opt))
          (PyDict m) = Ok (Some c).
Proof.
  apply (fallback_always_defined elements [Parent; Opt]). reflexivity.
Defined.

Lemma scan_dom (d : list (string * PyClass)) (m1 m2 : gmap string pyobj) :
  dom m1 = dom m2 → UniqField.scan d m1 = UniqField.scan d m2.
Proof.
  intros Hdom. induction d as [|[k v] d IH]; simpl; [done|].
  destruct (m1 !! k) as [x|] eqn:H1.
  - assert (k ∈ dom m2) as [y ->]%elem_of_dom;
      [rewrite <- Hdom; by apply elem_of_dom|done].
  - assert (m2 !! k = None) as ->; [|done].
    apply not_elem_of_dom. rewrite <- Hdom. by apply not_elem_of_dom.
Qed.

(** C10. The structural resolver looks at the keys of the mapping only:
    on two mappings with the same set of keys it returns the same class,
    whatever the values. *)
Theorem same_keys_same_class (set_iter : gset string → list string)
    (classes : list PyClass) (r : uniq_resolver) (m1 m2 : gmap string pyobj) :
  create_uniq_field_dis_func set_iter classes = Ok r →
  dom m1 = dom m2 →
  UniqField.dis_func r (PyDict m1) = UniqField.dis_func r (PyDict m2).
Proof.
  intros _ Hdom. simpl. by rewrite (scan_dom _ m1 m2 Hdom).
Qed.

Lemma same_keys_same_class_witness :
  UniqField.dis_func (mkUniqResolver [("c", Child)] (Some Parent))
    (PyDict {[ "p" := PyInt 1; "c" := PyInt 2 ]})
  = UniqField.dis_func (mkUniqResolver [("c", Child)] (Some Parent))
      (PyDict {[ "p" := PyStr "one"; "c" := PyList [] ]}).
Proof.
  apply (same_keys_same_class elements [Parent; Child]);
    vm_compute; reflexivity.
Defined.

(** ** The table of names *)

Lemma fold_names_lookup (classes : list PyClass) (m0 : gmap string PyClass)
    (s : string) :
  fold_left (λ m c, <[cls_name c := c]> m) classes m0 !! s
  = match last_named s classes with
    | Some c => Some c
    | None => m0 !! s
    end.
Proof.
  unfold last_named. revert m0.
  induction classes as [|c cs IH]; intros m0; simpl; [done|].
  rewrite IH. destruct (String.eqb_spec (cls_name c) s) as [Hs|Hs].
  - rewrite last_cons.
    destruct (last (List.filter _ cs)); [done|].
    by rewrite Hs, lookup_insert_eq.
  - destruct (last (List.filter _ cs)); [done|].
    by rewrite lookup_insert_ne.
Qed.

Lemma dict_of_names_lookup (classes : list PyClass) (s : string) :
  dict_of_names classes !! s = last_named s classes.
Proof.
  unfold dict_of_names. rewrite fold_names_lookup.
  by destruct (last_named s classes).
Qed.

Lemma last_named_Some (s : string) (classes : list PyClass) (c : PyClass) :
  last_named s classes = Some c → c ∈ classes ∧ cls_name c = s.
Proof.
  unfold last_named. intros Hl.
  assert (In c (List.filter (λ c, String.eqb (cls_name c) s) classes)) as Hin.
  { apply list_elem_of_In. apply last_Some in Hl as [l' ->].
    apply elem_of_app. right. left. }
  apply filter_In in Hin as [Hin Hs]. split.
  - by apply list_elem_of_In.
  - by apply String.eqb_eq.
Qed.

Lemma last_named_None (s : string) (classes : list PyClass) :
  last_named s classes = None → ∀ c, c ∈ classes → cls_name c ≠ s.
Proof.
  unfold last_named. intros Hl c Hin Hs. apply last_None in Hl.
  assert (In c (List.filter (λ c, String.eqb (cls_name c) s) classes)) as Hf.
  { apply filter_In. split; [by apply list_elem_of_In|by apply String.eqb_eq]. }
  by rewrite Hl in Hf.
Qed.

(** With names that differ, the last class of a name is the only one. *)
Lemma last_named_NoDup (classes : list PyClass) (c : PyClass) :
  NoDup (map cls_name classes) → c ∈ classes →
  last_named (cls_name c) classes = Some c.
Proof.
  intros Hnd Hin.
  destruct (last_named (cls_name c) classes) as [d|] eqn:Hl.
  - apply last_named_Some in Hl as [Hd Hname]. f_equal.
    apply list_elem_of_lookup in Hin as [i Hi].
    apply list_elem_of_lookup in Hd as [j Hj].
    assert (i = j) as ->; [|congruence].
    eapply NoDup_lookup; [exact Hnd| |].
    + by rewrite list_lookup_fmap, Hi.
    + by rewrite list_lookup_fmap, Hj, <- Hname.
  - exfalso. by eapply last_named_None.
Qed.

(** C4 (as amended). A tag-field resolver applied to a mapping that holds
    the key, under a hashable value: when the value is the name of a class
    of the sequence, the resolver returns the last class of the sequence
    that bears this name (the class itself when the names of the sequence
    differ); when the value is the name of no class, it returns the first
    class of the sequence, and raises nothing. *)
Theorem type_name_lookup (classes : list PyClass) (key : string)
    (r : type_name_resolver) (m : gmap string pyobj) (v : pyobj) :
  create_type_name_field_dis_func classes key = Ok r →
  m !! key = Some v →
  hashable v = true →
  (∀ c, c ∈ classes → v = PyStr (cls_name c) →
     ∃ d, last_named (cls_name c) classes = Some d
          ∧ d ∈ classes ∧ cls_name d = cls_name c
          ∧ TypeNameField.dis_func r (PyDict m) = Ok (Some d))
  ∧ (NoDup (map cls_name classes) →
     ∀ c, c ∈ classes → v = PyStr (cls_name c) →
       TypeNameField.dis_func r (PyDict m) = Ok (Some c))
  ∧ ((∀ c, c ∈ classes → v ≠ PyStr (cls_name c)) →
     ∃ c0, head classes = Some c0
           ∧ TypeNameField.dis_func r (PyDict m) = Ok (Some c0)).
Proof.
  unfold create_type_name_field_dis_func.
  destruct classes as [|c0 cs] eqn:Hcs; [done|]. rewrite <- Hcs.
  intros [= <-] Hm Hh.
  assert (∀ c, c ∈ classes → v = PyStr (cls_name c) →
     ∃ d, last_named (cls_name c) classes = Some d
          ∧ d ∈ classes ∧ cls_name d = cls_name c
          ∧ TypeNameField.dis_func
              (mkTypeNameResolver key (dict_of_names classes) c0) (PyDict m)
            = Ok (Some d)) as Hfound.
  { intros c Hin ->. simpl. rewrite Hm. simpl.
    rewrite dict_of_names_lookup.
    destruct (last_named (cls_name c) classes) as [d|] eqn:Hl.
    - exists d. apply last_named_Some in Hl as Hd. by destruct Hd.
    - exfalso. by eapply last_named_None. }
  split; [exact Hfound|]. split.
  - intros Hnd c Hin Hv. destruct (Hfound c Hin Hv) as (d & Hl & _ & _ & Hr).
    rewrite last_named_NoDup in Hl by done. by injection Hl as <-.
  - intros Hnone. exists c0. split; [by rewrite Hcs|].
    simpl. rewrite Hm, Hh.
    destruct v as [| | |s| |]; try done.
    rewrite dict_of_names_lookup.
    destruct (last_named s classes) as [d|] eqn:Hl; [|done].
    apply last_named_Some in Hl as [Hd <-]. by destruct (Hnone d Hd).
Qed.

Lemma type_name_lookup_witness :
  (∀ c, c ∈ [A; B; C] → PyStr "B" = PyStr (cls_name c) →
     ∃ d, last_named (cls_name c) [A; B; C] = Some d
          ∧ d ∈ [A; B; C] ∧ cls_name d = cls_name c
          ∧ TypeNameField.dis_func
              (mkTypeNameResolver "type" (dict_of_names [A; B; C]) A)
              (PyDict {[ "type" := PyStr "B" ]}) = Ok (Some d))
  ∧ (NoDup (map cls_name [A; B; C]) →
     ∀ c, c ∈ [A; B; C] → PyStr "B" = PyStr (cls_name c) →
       TypeNameField.dis_func
         (mkTypeNameResolver "type" (dict_of_names [A; B; C]) A)
         (PyDict {[ "type" := PyStr "B" ]}) = Ok (Some c))
  ∧ ((∀ c, c ∈ [A; B; C] → PyStr "B" ≠ PyStr (cls_name c)) →
     ∃ c0, head [A; B; C] = Some c0
           ∧ TypeNameField.dis_func
               (mkTypeNameResolver "type" (dict_of_names [A; B; C]) A)
               (PyDict {[ "type" := PyStr "B" ]}) = Ok (Some c0)).
Proof.
  apply (type_name_lookup [A; B; C] "type" _ _ (PyStr "B")); reflexivity.
Defined.

(** C4, as stated, fails on a value that cannot be hashed: the test
    [type_name not in names_to_cl] raises [TypeError] on the list [[]],
    which is the name of no class. *)
Lemma type_name_unhashable_raises :
  create_type_name_field_dis_func [A; B; C] "type"
    = Ok (mkTypeNameResolver "type" (dict_of_names [A; B; C]) A)
  ∧ ({[ "type" := PyList [] ]} : gmap string pyobj) !! "type"
    = Some (PyList [])
  ∧ (∀ c, c ∈ [A; B; C] → PyList [] ≠ PyStr (cls_name c))
  ∧ TypeNameField.dis_func
      (mkTypeNameResolver "type" (dict_of_names [A; B; C]) A)
      (PyDict {[ "type" := PyList [] ]}) = Raise TypeError
  ∧ TypeNameField.dis_func
      (mkTypeNameResolver "type" (dict_of_names [A; B; C]) A)
      (PyDict {[ "type" := PyList [] ]}) ≠ Ok (Some A).
Proof.
  split; [reflexivity|]. split; [reflexivity|]. split; [done|].
  split; [reflexivity|]. vm_compute. discriminate.
Qed.

(** Two classes of one name: the later one is returned, also for the
    name of the earlier one. *)
Lemma type_name_duplicate_last_wins :
  TypeNameField.dis_func
    (mkTypeNameResolver "type" (dict_of_names [A; A']) A)
    (PyDict {[ "type" := PyStr (cls_name A) ]}) = Ok (Some A').
Proof. reflexivity. Qed.

(** ** A class is recognised by its own attributes *)

Lemma scan_own_fields (cs : list PyClass) (es : list (string * PyClass))
    (c : PyClass) (m : gmap string pyobj) :
  entries_of cs es → c ∈ cs → dom m = attr_names c →
  match UniqField.scan es m with
  | Some v => Some v
  | None => last cs
  end = Some c.
Proof.
  intros Hes. revert c.
  induction Hes as [c0|c0 cs u es Hne Hu Hr Hes IH]; intros c Hin Hdom.
  - apply list_elem_of_singleton in Hin as ->. done.
  - simpl. unfold uniq_fields in Hu.
    apply elem_of_difference in Hu as [Hu0 Hucs].
    apply elem_of_cons in Hin as [->|Hin].
    + assert (u ∈ dom m) as [x ->]%elem_of_dom by (by rewrite Hdom). done.
    + assert (m !! u = None) as ->.
      { apply not_elem_of_dom. rewrite Hdom. intros Hc. apply Hucs.
        apply elem_of_union_list. exists (attr_names c). split; [|done].
        apply list_elem_of_fmap. by exists c. }
      rewrite last_cons. specialize (IH c Hin Hdom).
      destruct (UniqField.scan es m); [done|].
      by destruct (last cs).
Qed.

Section OwnFields.
Variable set_iter : gset string → list string.
Hypothesis set_iter_perm : ∀ X, set_iter X ≡ₚ elements X.

(** What the builder returns, when it returns. *)
Lemma create_uniq_field_dis_func_inv (classes : list PyClass)
    (r : uniq_resolver) :
  create_uniq_field_dis_func set_iter classes = Ok r →
  entries_of (processing_order classes) (uniq_attrs_dict r)
  ∧ fallback r = last (processing_order classes).
Proof.
  rewrite create_uniq_field_dis_func_unfold.
  destruct (Nat.ltb_spec (length classes) 2) as [|Hlen]; [done|].
  destruct (Nat.ltb_spec 1 (length (empty_classes classes))); [done|].
  intros Hb. apply build_loop_inv in Hb as (es & Hes & Htab & Hf).
  - simpl in Htab. by rewrite Htab.
  - done.
  - intros He. apply (f_equal length) in He.
    rewrite processing_order_length in He. simpl in He. lia.
  - simpl. by intros k ?%elem_of_nil.
Qed.

(** Whenever the builder returns, a mapping whose keys are the attributes
    of a class of the sequence resolves to this class. *)
Lemma resolve_own_fields (classes : list PyClass) (r : uniq_resolver)
    (c : PyClass) (m : gmap string pyobj) :
  create_uniq_field_dis_func set_iter classes = Ok r →
  c ∈ classes → dom m = attr_names c →
  UniqField.dis_func r (PyDict m) = Ok (Some c).
Proof.
  intros Hb Hin Hdom.
  apply create_uniq_field_dis_func_inv in Hb as [Hes Hf].
  pose proof (scan_own_fields _ _ c m Hes) as Hs.
  rewrite processing_order_perm in Hs. specialize (Hs Hin Hdom).
  simpl. destruct (UniqField.scan (uniq_attrs_dict r) m).
  - by injection Hs as ->.
  - by rewrite Hf, Hs.
Qed.

(** The builder returns on the sequences of two classes or more, at most
    one of them without attributes, whose processing order is
    discriminable. *)
Lemma create_uniq_field_dis_func_success (classes : list PyClass) :
  2 ≤ length classes →
  length (empty_classes classes) ≤ 1 →
  discriminable (processing_order classes) = true →
  ∃ r, create_uniq_field_dis_func set_iter classes = Ok r.
Proof.
  intros Hlen Hemp Hd. rewrite create_uniq_field_dis_func_unfold.
  destruct (Nat.ltb_spec (length classes) 2); [lia|].
  destruct (Nat.ltb_spec 1 (length (empty_classes classes))); [lia|].
  apply build_loop_success; [done| |done].
  intros He. apply (f_equal length) in He.
  rewrite processing_order_length in He. simpl in He. lia.
Qed.
End OwnFields.

(** ** Sequences whose required attributes tell the classes apart *)

Lemma required_apart_to_rec (cs : list PyClass) :
  required_apart cs → required_apart_rec cs.
Proof.
  induction cs as [|c cs IH]; intros Hap; simpl; [done|]. split.
  - apply Forall_forall. intros d Hd.
    apply list_elem_of_lookup in Hd as [k Hk]. split.
    + by apply (Hap 0 (S k) c d).
    + by apply (Hap (S k) 0 d c).
  - apply IH. intros i j x y Hij Hi Hj.
    apply (Hap (S i) (S j) x y); [lia|done..].
Qed.

Lemma required_apart_rec_perm (cs1 cs2 : list PyClass) :
  cs1 ≡ₚ cs2 → required_apart_rec cs1 → required_apart_rec cs2.
Proof.
  induction 1 as [|x l1 l2 Hp IH|x y l|l1 l2 l3 Hp1 IH1 Hp2 IH2]; simpl.
  - done.
  - intros [Hx Hl]. split; [by rewrite <- Hp|by apply IH].
  - intros [Hy [Hx Hl]].
    apply Forall_cons in Hy as [[Hyx Hxy] Hy]. repeat split; try done.
    constructor; [done|done].
  - intros H. by apply IH2, IH1.
Qed.

Lemma empty_classes_cons_le (c : PyClass) (cs : list PyClass) :
  length (empty_classes cs) ≤ length (empty_classes (c :: cs)).
Proof.
  unfold empty_classes. simpl. destruct (bool_decide _); simpl; lia.
Qed.

Lemma discriminable_of_apart (cs : list PyClass) :
  StronglySorted (key_le class_key) cs →
  required_apart_rec cs →
  some_required cs →
  length (empty_classes cs) ≤ 1 →
  discriminable cs = true.
Proof.
  induction cs as [|c cs IH]; intros Hs Hap Hsome Hemp; [done|].
  destruct cs as [|d cs]; [done|].
  apply StronglySorted_inv in Hs as [Hs Hc]. destruct Hap as [Hcap Hap].
  apply Forall_cons in Hsome as [Hcsome Hsome].
  cbn [discriminable]. apply andb_true_intro. split.
  - assert (attr_names c ≠ ∅) as Hne.
    { intros Hc0. apply Forall_cons in Hc as [Hcd _].
      unfold key_le, class_key in Hcd. rewrite Hc0, size_empty in Hcd.
      assert (attr_names d = ∅) as Hd0.
      { apply leibniz_equiv, size_empty_iff. lia. }
      unfold empty_classes in Hemp. simpl in Hemp.
      rewrite !bool_decide_eq_true_2 in Hemp by done. simpl in Hemp. lia. }
    apply Hcsome in Hne. apply set_choose_L in Hne as [a Ha].
    apply elem_of_filter in Ha as [Hr Ha].
    apply has_uniq_required_spec. exists a. split; [|done].
    unfold uniq_fields. apply elem_of_difference. split; [done|].
    intros Hin. apply elem_of_union_list in Hin as (X & HX & HaX).
    apply list_elem_of_fmap in HX as (e & -> & He).
    rewrite Forall_forall in Hcap. destruct (Hcap e He) as [Hdisj _].
    apply (Hdisj a); [|done]. apply elem_of_filter. by split.
  - apply IH; [done..|].
    etransitivity; [apply (empty_classes_cons_le c)|done].
Qed.

Section Recognition.
Variable set_iter : gset string → list string.
Hypothesis set_iter_perm : ∀ X, set_iter X ≡ₚ elements X.

(** C1 (as amended). On a sequence of two classes or more in which at
    most one class has no attribute, every class with attributes has a
    required one, and no required attribute of a class is an attribute of
    another class, the structural builder returns, and the resolver maps
    every mapping whose keys are the attributes of a class of the sequence
    to this class. *)
Theorem disjoint_required_resolve (classes : list PyClass) :
  2 ≤ length classes →
  length (empty_classes classes) ≤ 1 →
  some_required classes →
  required_apart classes →
  ∃ r, create_uniq_field_dis_func set_iter classes = Ok r
       ∧ ∀ c m, c ∈ classes → dom m = attr_names c →
           UniqField.dis_func r (PyDict m) = Ok (Some c).
Proof.
  intros Hlen Hemp Hsome Hap.
  destruct (create_uniq_field_dis_func_success set_iter set_iter_perm classes)
    as [r Hr]; [done..| |].
  - apply discriminable_of_apart.
    + rewrite processing_order_eq. apply sort_by_key_sorted.
    + apply (required_apart_rec_perm classes);
        [by rewrite processing_order_perm|by apply required_apart_to_rec].
    + unfold some_required in *. by rewrite processing_order_perm.
    + by rewrite (empty_classes_perm _ classes)
        by apply processing_order_perm.
  - exists r. split; [done|]. intros c m Hin Hdom.
    by apply (resolve_own_fields set_iter set_iter_perm classes).
Qed.
End Recognition.

Lemma disjoint_required_resolve_witness :
  2 ≤ length [Sx; C; Empty1]
  ∧ length (empty_classes [Sx; C; Empty1]) ≤ 1
  ∧ some_required [Sx; C; Empty1]
  ∧ required_apart [Sx; C; Empty1]
  ∧ ∃ r, create_uniq_field_dis_func elements [Sx; C; Empty1] = Ok r
         ∧ ∀ c m, c ∈ [Sx; C; Empty1] → dom m = attr_names c →
             UniqField.dis_func r (PyDict m) = Ok (Some c).
Proof.
  assert (2 ≤ length [Sx; C; Empty1]) as H1 by (simpl; lia).
  assert (length (empty_classes [Sx; C; Empty1]) ≤ 1) as H2
    by (vm_compute; lia).
  assert (some_required [Sx; C; Empty1]) as H3.
  { unfold some_required. apply (bool_decide_unpack _). vm_compute. exact I. }
  assert (required_apart [Sx; C; Empty1]) as H4.
  { intros i j c d Hij Hi Hj.
    destruct i as [|[|[|i]]]; destruct j as [|[|[|j]]];
      try done; simpl in Hi, Hj; injection Hi as <-; injection Hj as <-;
      apply (bool_decide_unpack _); vm_compute; exact I. }
  split; [exact H1|]. split; [exact H2|]. split; [exact H3|].
  split; [exact H4|].
  exact (disjoint_required_resolve elements
           (λ X, Permutation_refl (elements X)) _ H1 H2 H3 H4).
Defined.

(** C1, as stated, fails on two classes without attributes: their sets of
    required attributes are disjoint, all their attributes are required,
    and the builder raises "At least two classes have no attributes". *)
Lemma disjoint_required_two_empty :
  2 ≤ length [Empty1; Empty2]
  ∧ pairwise_disjoint (map required_names [Empty1; Empty2])
  ∧ pairwise_disjoint (map attr_names [Empty1; Empty2])
  ∧ Forall all_required [Empty1; Empty2]
  ∧ create_uniq_field_dis_func elements [Empty1; Empty2]
    = Raise MultipleEmptySchemas
  ∧ ∀ r, create_uniq_field_dis_func elements [Empty1; Empty2] ≠ Ok r.
Proof.
  split; [simpl; lia|].
  assert (∀ Fs : list (gset string), Fs = [∅; ∅] → pairwise_disjoint Fs)
    as Hdisj.
  { intros Fs -> i j F G Hij Hi Hj.
    destruct i as [|[|i]]; destruct j as [|[|j]]; try done;
      simpl in Hi, Hj; injection Hi as <-; injection Hj as <-; set_solver. }
  split; [by apply Hdisj|]. split; [by apply Hdisj|].
  split; [by repeat constructor|].
  split; [reflexivity|]. intros r. vm_compute. discriminate.
Qed.

(** Disjoint sets of required attributes do not suffice either when a class
    has no required attribute, or when a required attribute of a class is
    an attribute with a default of another class. *)
Lemma disjoint_required_only_defaults :
  pairwise_disjoint (map required_names [Opt; Opt2])
  ∧ create_uniq_field_dis_func elements [Opt; Opt2]
    = Raise (NoUniqueRequiredField Opt).
Proof.
  split; [|reflexivity].
  intros i j F G Hij Hi Hj.
  destruct i as [|[|i]]; destruct j as [|[|j]]; try done;
    simpl in Hi, Hj; injection Hi as <-; injection Hj as <-;
    apply (bool_decide_unpack _); vm_compute; exact I.
Qed.

Lemma disjoint_required_shared_default :
  pairwise_disjoint (map required_names [Sx; Sy; Sw])
  ∧ create_uniq_field_dis_func elements [Sx; Sy; Sw]
    = Raise (NoUniqueField Sx).
Proof.
  split; [|reflexivity].
  intros i j F G Hij Hi Hj.
  destruct i as [|[|[|i]]]; destruct j as [|[|[|j]]]; try done;
    simpl in Hi, Hj; injection Hi as <-; injection Hj as <-;
    apply (bool_decide_unpack _); vm_compute; exact I.
Qed.

(** ** A class and its subclass *)

Section ParentChild.
Variable set_iter : gset string → list string.
Hypothesis set_iter_perm : ∀ X, set_iter X ≡ₚ elements X.

(** C2. For a class [parent] with the attribute [p] and a class [child]
    with the attributes [p] and [c], all required, given in either order,
    the builder returns the table [c -> child] with the fallback [parent]:
    a mapping with the keys [p] and [c] resolves to [child] and not to
    [parent], a mapping with the key [p] and without the key [c] resolves
    to [parent] and not to [child]. *)
Theorem parent_child_resolve (parent child : PyClass) (p c : string)
    (classes : list PyClass) :
  p ≠ c →
  attr_names parent = {[ p ]} →
  attr_names child = {[ p; c ]} →
  all_required parent →
  all_required child →
  classes = [parent; child] ∨ classes = [child; parent] →
  create_uniq_field_dis_func set_iter classes
    = Ok (mkUniqResolver [(c, child)] (Some parent))
  ∧ ∀ m : gmap string pyobj, is_Some (m !! p) →
      (is_Some (m !! c) →
         UniqField.dis_func (mkUniqResolver [(c, child)] (Some parent))
           (PyDict m) = Ok (Some child)
         ∧ UniqField.dis_func (mkUniqResolver [(c, child)] (Some parent))
             (PyDict m) ≠ Ok (Some parent))
      ∧ (m !! c = None →
           UniqField.dis_func (mkUniqResolver [(c, child)] (Some parent))
             (PyDict m) = Ok (Some parent)
           ∧ UniqField.dis_func (mkUniqResolver [(c, child)] (Some parent))
               (PyDict m) ≠ Ok (Some child)).
Proof.
  intros Hpc Hp Hc Hrp Hrc Hcls.
  assert (parent ≠ child) as Hne.
  { intros ->. rewrite Hp in Hc. set_solver. }
  assert (size (attr_names parent) = 1) as Hsp
    by (by rewrite Hp, size_singleton).
  assert (size (attr_names child) = 2) as Hsc.
  { rewrite Hc, size_union, !size_singleton by set_solver. done. }
  assert (processing_order classes = [child; parent]) as Hpo.
  { rewrite processing_order_eq.
    destruct Hcls as [-> | ->]; simpl; unfold class_key;
      rewrite Hsp, Hsc; reflexivity. }
  assert (uniq_fields child [parent] = {[ c ]}) as Hu.
  { unfold uniq_fields. simpl. rewrite Hp, Hc. set_solver. }
  destruct (create_uniq_field_dis_func_success set_iter set_iter_perm classes)
    as [r Hr].
  - destruct Hcls as [-> | ->]; simpl; lia.
  - assert (empty_classes classes = []) as ->; [|simpl; lia].
    unfold empty_classes.
    destruct Hcls as [-> | ->]; simpl;
      rewrite !bool_decide_eq_false_2; try done;
      rewrite ?Hp, ?Hc; set_solver.
  - rewrite Hpo. simpl. rewrite andb_true_r.
    apply has_uniq_required_spec. exists c. split; [set_solver|].
    apply all_required_required; [done|]. rewrite Hc. set_solver.
  - assert (r = mkUniqResolver [(c, child)] (Some parent)) as ->.
    { pose proof (create_uniq_field_dis_func_inv set_iter set_iter_perm
                    classes r Hr) as [Hes Hf].
      rewrite Hpo in Hes, Hf. destruct r as [tab fb]. simpl in *.
      inversion Hes as [|? ? u es ? Hin ? Hes']; subst.
      inversion Hes'; subst; [|done].
      rewrite Hu in Hin. apply elem_of_singleton in Hin as ->. done. }
    split; [done|]. intros m _. simpl. split.
    + intros [x ->]. split; [done|]. intros [= ?]. by apply Hne.
    + intros ->. split; [done|]. intros [= ?]. by apply Hne.
Qed.
End ParentChild.

Lemma parent_child_resolve_witness :
  create_uniq_field_dis_func elements [Parent; Child]
    = Ok (mkUniqResolver [("c", Child)] (Some Parent))
  ∧ ∀ m : gmap string pyobj, is_Some (m !! "p") →
      (is_Some (m !! "c") →
         UniqField.dis_func (mkUniqResolver [("c", Child)] (Some Parent))
           (PyDict m) = Ok (Some Child)
         ∧ UniqField.dis_func (mkUniqResolver [("c", Child)] (Some Parent))
             (PyDict m) ≠ Ok (Some Parent))
      ∧ (m !! "c" = None →
           UniqField.dis_func (mkUniqResolver [("c", Child)] (Some Parent))
             (PyDict m) = Ok (Some Parent)
           ∧ UniqField.dis_func (mkUniqResolver [("c", Child)] (Some Parent))
               (PyDict m) ≠ Ok (Some Child)).
Proof.
  apply (parent_child_resolve elements (λ X, Permutation_refl (elements X))
           Parent Child "p" "c" [Parent; Child]).
  - discriminate.
  - vm_compute. reflexivity.
  - vm_compute. reflexivity.
  - repeat constructor.
  - repeat constructor.
  - left. reflexivity.
Defined.

(** ** A unique attribute with a default *)

Lemma entries_of_split (pre : list PyClass) (c : PyClass)
    (post : list PyClass) (es : list (string * PyClass)) :
  entries_of (pre ++ c :: post) es → post ≠ [] →
  ∃ u, u ∈ uniq_fields c post ∧ required c u = true.
Proof.
  revert es. induction pre as [|d pre IH]; intros es Hes Hpost.
  - simpl in Hes. inversion Hes; subst; [done|]. by eexists.
  - simpl in Hes. inversion Hes as [|? ? u es' ? ? ? Hes']; subst.
    + by destruct pre.
    + by eapply IH.
Qed.

Section UniqueDefault.
Variable set_iter : gset string → list string.
Hypothesis set_iter_perm : ∀ X, set_iter X ≡ₚ elements X.

(** C5 (as amended). When a class that is not the last of the processing
    order has a single unique attribute and this attribute has a default,
    the structural builder does not return; when moreover at most one
    class has no attribute and every class before it in the processing
    order has a unique required attribute, the builder raises "... has no
    usable non-default attributes" for this class. *)
Theorem only_unique_field_default (classes pre : list PyClass) (c : PyClass)
    (post : list PyClass) (f : string) :
  processing_order classes = pre ++ c :: post →
  post ≠ [] →
  uniq_fields c post = {[ f ]} →
  has_default c f = true →
  (∀ r, create_uniq_field_dis_func set_iter classes ≠ Ok r)
  ∧ (length (empty_classes classes) ≤ 1 →
     discriminable_prefix pre (c :: post) = true →
     create_uniq_field_dis_func set_iter classes
     = Raise (NoUniqueRequiredField c)).
Proof.
  intros Hpo Hpost Hu Hd. split.
  - intros r Hr.
    apply (create_uniq_field_dis_func_inv set_iter set_iter_perm) in Hr
      as [Hes _].
    rewrite Hpo in Hes.
    apply entries_of_split in Hes as (u & Hin & Hreq); [|done].
    rewrite Hu in Hin. apply elem_of_singleton in Hin as ->.
    by eapply required_not_default.
  - intros Hemp Hpre. rewrite create_uniq_field_dis_func_unfold.
    assert (2 ≤ length classes) as Hlen.
    { rewrite <- processing_order_length, Hpo, length_app. simpl.
      destruct post; [done|]. simpl. lia. }
    destruct (Nat.ltb_spec (length classes) 2); [lia|].
    destruct (Nat.ltb_spec 1 (length (empty_classes classes))); [lia|].
    rewrite Hpo. apply build_loop_fail_at; [done..| |].
    + rewrite Hu. set_solver.
    + intros n Hn. rewrite Hu in Hn.
      by apply elem_of_singleton in Hn as ->.
Qed.
End UniqueDefault.

Lemma only_unique_field_default_witness :
  processing_order [Child; Middle; Right] = [Child] ++ Middle :: [Right]
  ∧ uniq_fields Middle [Right] = {[ "z" ]}
  ∧ has_default Middle "z" = true
  ∧ length (empty_classes [Child; Middle; Right]) ≤ 1
  ∧ discriminable_prefix [Child] (Middle :: [Right]) = true
  ∧ (∀ r, create_uniq_field_dis_func elements [Child; Middle; Right] ≠ Ok r)
  ∧ create_uniq_field_dis_func elements [Child; Middle; Right]
    = Raise (NoUniqueRequiredField Middle).
Proof.
  assert (processing_order [Child; Middle; Right]
          = [Child] ++ Middle :: [Right]) as H1 by reflexivity.
  assert (uniq_fields Middle [Right] = {[ "z" ]}) as H2
    by (vm_compute; reflexivity).
  assert (has_default Middle "z" = true) as H3 by reflexivity.
  assert (length (empty_classes [Child; Middle; Right]) ≤ 1) as H4
    by (vm_compute; lia).
  assert (discriminable_prefix [Child] (Middle :: [Right]) = true) as H5
    by (vm_compute; reflexivity).
  pose proof (only_unique_field_default elements
                (λ X, Permutation_refl (elements X))
                [Child; Middle; Right] [Child] Middle [Right] "z"
                H1 ltac:(discriminate) H2 H3) as [Hno Hraise].
  repeat (split; [assumption|]). exact (Hraise H4 H5).
Defined.

(** C5, as stated, fails on the last class of the processing order: the
    only attribute of [Opt] is unique and has a default, and the builder
    returns, with [Opt] as the fallback. *)
Lemma only_unique_field_default_last :
  2 ≤ length [Parent; Opt]
  ∧ processing_order [Parent; Opt] = [Parent] ++ Opt :: []
  ∧ uniq_fields Opt [] = {[ "x" ]}
  ∧ has_default Opt "x" = true
  ∧ create_uniq_field_dis_func elements [Parent; Opt]
    = Ok (mkUniqResolver [("p", Parent)] (Some Opt))
  ∧ ∀ cl, create_uniq_field_dis_func elements [Parent; Opt]
          ≠ Raise (NoUniqueRequiredField cl).
Proof.
  split; [simpl; lia|]. split; [reflexivity|].
  split; [vm_compute; reflexivity|]. split; [reflexivity|].
  split; [reflexivity|]. intros cl. vm_compute. discriminate.
Qed.

(** A class that is not the last may have a default on its only unique
    attribute and the builder may raise another error first: here the
    class met before it has no unique attribute at all. *)
Lemma only_unique_field_default_preempted :
  processing_order [Left; Middle; Right] = [Left] ++ Middle :: [Right]
  ∧ uniq_fields Middle [Right] = {[ "z" ]}
  ∧ has_default Middle "z" = true
  ∧ create_uniq_field_dis_func elements [Left; Middle; Right]
    = Raise (NoUniqueField Left).
Proof.
  split; [reflexivity|]. split; [vm_compute; reflexivity|].
  split; reflexivity.
Qed.

(** ** The examples of the tests *)

(** [test_structure_non_attr_subclass]: a subclass without attributes of
    its own cannot be told from its base class. *)
Example non_attr_subclass_not_built :
  create_uniq_field_dis_func elements [Base; Sub] = Raise (NoUniqueField Base).
Proof. reflexivity. Qed.

(** [test_structure_as_union]: the mapping of a child resolves to the
    child, the mapping of the parent to the parent. *)
Example parent_child_mappings :
  (r ← create_uniq_field_dis_func elements [Parent; Child];
   UniqField.dis_func r (PyDict {[ "p" := PyInt 1; "c" := PyInt 2 ]}))
  = Ok (Some Child)
  ∧ (r ← create_uniq_field_dis_func elements [Parent; Child];
     UniqField.dis_func r (PyDict {[ "p" := PyInt 1 ]}))
    = Ok (Some Parent).
Proof. split; reflexivity. Qed.

(** The tag-field resolver on a known name, an unknown name and a mapping
    without the key. *)
Example type_name_mappings :
  (r ← create_type_name_field_dis_func [A; B; C] "type";
   TypeNameField.dis_func r (PyDict {[ "type" := PyStr "B"; "y" := PyInt 1 ]}))
  = Ok (Some B)
  ∧ (r ← create_type_name_field_dis_func [A; B; C] "type";
     TypeNameField.dis_func r (PyDict {[ "type" := PyStr "Z" ]}))
    = Ok (Some A)
  ∧ (r ← create_type_name_field_dis_func [A; B; C] "type";
     TypeNameField.dis_func r (PyDict {[ "y" := PyInt 1 ]}))
    = Raise (MissingDiscriminator "type")
  ∧ create_type_name_field_dis_func [] "type" = Raise IndexError.
Proof. repeat split; reflexivity. Qed.

(** A single class is refused by the structural builder. *)
Example one_class_not_built :
  create_uniq_field_dis_func elements [Parent] = Raise InsufficientCandidates.
Proof. reflexivity. Qed.

(** * Further properties of the builders and of the resolvers *)

(** ** What the table of the structural builder holds *)

Lemma entries_of_length (cs : list PyClass) (es : list (string * PyClass)) :
  entries_of cs es → S (length es) = length cs.
Proof. induction 1; simpl; [done|]. by f_equal. Qed.

Lemma entries_of_classes (cs : list PyClass) (es : list (string * PyClass)) :
  entries_of cs es → ∃ c, last cs = Some c ∧ map snd es ++ [c] = cs.
Proof.
  induction 1 as [c|c cs u es Hne Hu Hr Hes (d & Hl & Hcs)].
  - by exists c.
  - exists d. split.
    + rewrite last_cons, Hl. done.
    + simpl. by rewrite Hcs.
Qed.

Lemma entries_of_lookup (cs : list PyClass) (es : list (string * PyClass))
    (i : nat) (k : string) (c : PyClass) :
  entries_of cs es → es !! i = Some (k, c) →
  cs !! i = Some c ∧ required c k = true ∧ k ∈ attr_names c
  ∧ ∀ j d, i < j → cs !! j = Some d → k ∉ attr_names d.
Proof.
  intros Hes. revert i.
  induction Hes as [c0|c0 cs u es Hne Hu Hr Hes IH]; intros i Hi; [done|].
  destruct i as [|i].
  - injection Hi as -> ->. unfold uniq_fields in Hu.
    apply elem_of_difference in Hu as [Hu0 Hucs].
    repeat split; try done.
    intros j d Hj Hd Hk. destruct j as [|j]; [lia|]. simpl in Hd.
    apply Hucs. apply elem_of_union_list. exists (attr_names d).
    split; [|done]. apply list_elem_of_fmap. exists d. split; [done|].
    by eapply list_elem_of_lookup_2.
  - simpl in Hi. destruct (IH i Hi) as (Hc & Hreq & Hin & Hlater).
    repeat split; try done.
    intros j d Hj Hd. destruct j as [|j]; [lia|]. simpl in Hd.
    apply (Hlater j d); [lia|done].
Qed.

Lemma entries_of_keys_NoDup (cs : list PyClass) (es : list (string * PyClass)) :
  entries_of cs es → NoDup (map fst es).
Proof.
  intros Hes. apply NoDup_alt. intros i j k Hi Hj.
  rewrite list_lookup_fmap in Hi, Hj.
  destruct (es !! i) as [[ki ci]|] eqn:Ei; [|done].
  destruct (es !! j) as [[kj cj]|] eqn:Ej; [|done].
  simpl in Hi, Hj. injection Hi as ->. injection Hj as ->.
  destruct (entries_of_lookup _ _ _ _ _ Hes Ei) as (Hci & _ & Hini & Hli).
  destruct (entries_of_lookup _ _ _ _ _ Hes Ej) as (Hcj & _ & Hinj & Hlj).
  destruct (Nat.lt_trichotomy i j) as [Hlt|[Heq|Hgt]]; [|done|].
  - by destruct (Hli j cj Hlt Hcj).
  - by destruct (Hlj i ci Hgt Hci).
Qed.

Lemma entries_of_attr_names_NoDup (cs : list PyClass)
    (es : list (string * PyClass)) :
  entries_of cs es → NoDup (map attr_names cs).
Proof.
  induction 1 as [c|c cs u es Hne Hu Hr Hes IH]; simpl.
  - apply NoDup_singleton.
  - apply NoDup_cons. split; [|done].
    intros Hin. apply list_elem_of_fmap in Hin as (d & Hd & Hin).
    unfold uniq_fields in Hu. apply elem_of_difference in Hu as [Hu0 Hucs].
    apply Hucs. apply elem_of_union_list. exists (attr_names d).
    split; [|by rewrite <- Hd]. apply list_elem_of_fmap. by exists d.
Qed.

Lemma entries_of_discriminable (cs : list PyClass)
    (es : list (string * PyClass)) :
  entries_of cs es → discriminable cs = true.
Proof.
  induction 1 as [c|c cs u es Hne Hu Hr Hes IH]; [done|].
  simpl. destruct cs as [|d cs]; [done|].
  apply andb_true_intro. split; [|done].
  apply has_uniq_required_spec. by exists u.
Qed.

Section Table.
Variable set_iter : gset string → list string.
Hypothesis set_iter_perm : ∀ X, set_iter X ≡ₚ elements X.

(** X1. When the structural builder returns, its table has one entry per
    class but the last of the processing order, in this order, and the
    last class is the fallback; the keys of the table differ from one
    another; the key of an entry is a required attribute of its class, and
    an attribute of no class met later. *)
Theorem table_invariant (classes : list PyClass) (r : uniq_resolver) :
  create_uniq_field_dis_func set_iter classes = Ok r →
  S (length (uniq_attrs_dict r)) = length classes
  ∧ NoDup (map fst (uniq_attrs_dict r))
  ∧ (∃ c, fallback r = Some c
          ∧ map snd (uniq_attrs_dict r) ++ [c] = processing_order classes)
  ∧ ∀ i k c, uniq_attrs_dict r !! i = Some (k, c) →
      processing_order classes !! i = Some c
      ∧ required c k = true
      ∧ k ∈ attr_names c
      ∧ ∀ j d, i < j → processing_order classes !! j = Some d →
               k ∉ attr_names d.
Proof.
  intros Hr.
  apply (create_uniq_field_dis_func_inv set_iter set_iter_perm) in Hr
    as [Hes Hf].
  split; [by rewrite (entries_of_length _ _ Hes), processing_order_length|].
  split; [by eapply entries_of_keys_NoDup|]. split.
  - destruct (entries_of_classes _ _ Hes) as (c & Hl & Hcs).
    exists c. by rewrite Hf.
  - intros i k c Hi. by eapply entries_of_lookup.
Qed.

(** X2. The structural builder returns exactly on the sequences of two
    classes or more, at most one of them without attributes, in which every
    class but the last of the processing order has a required attribute that
    no class met later has. *)
Theorem builder_returns_iff (classes : list PyClass) :
  (∃ r, create_uniq_field_dis_func set_iter classes = Ok r)
  ↔ 2 ≤ length classes
    ∧ length (empty_classes classes) ≤ 1
    ∧ discriminable (processing_order classes) = true.
Proof.
  split.
  - intros [r Hr].
    pose proof (create_uniq_field_dis_func_inv set_iter set_iter_perm
                  classes r Hr) as [Hes _].
    rewrite create_uniq_field_dis_func_unfold in Hr.
    destruct (Nat.ltb_spec (length classes) 2); [done|].
    destruct (Nat.ltb_spec 1 (length (empty_classes classes))); [done|].
    repeat split; [done|lia|]. by eapply entries_of_discriminable.
  - intros (Hlen & Hemp & Hd).
    by apply (create_uniq_field_dis_func_success set_iter set_iter_perm).
Qed.

(** X3. When the structural builder returns, no two classes of the
    sequence have the same set of attribute names: a class given twice, or
    a subclass that adds no attribute to its base class, makes the builder
    raise. *)
Theorem built_attr_sets_differ (classes : list PyClass) (r : uniq_resolver) :
  create_uniq_field_dis_func set_iter classes = Ok r →
  NoDup (map attr_names classes) ∧ NoDup classes.
Proof.
  intros Hr.
  apply (create_uniq_field_dis_func_inv set_iter set_iter_perm) in Hr
    as [Hes _].
  apply entries_of_attr_names_NoDup in Hes.
  assert (NoDup (map attr_names classes)) as Hnd.
  { eapply NoDup_Permutation_proper; [|exact Hes].
    apply fmap_Permutation. symmetry. apply processing_order_perm. }
  split; [done|]. by eapply NoDup_fmap_1.
Qed.
End Table.

Lemma table_invariant_witness :
  create_uniq_field_dis_func elements [Parent; Child; Other]
    = Ok (mkUniqResolver [("c", Child); ("p", Parent)] (Some Other))
  ∧ S (length [("c", Child); ("p", Parent)]) = length [Parent; Child; Other]
  ∧ NoDup (map fst [("c", Child); ("p", Parent)])
  ∧ (∃ c, Some Other = Some c
          ∧ map snd [("c", Child); ("p", Parent)] ++ [c]
            = processing_order [Parent; Child; Other])
  ∧ ∀ i k c, [("c", Child); ("p", Parent)] !! i = Some (k, c) →
      processing_order [Parent; Child; Other] !! i = Some c
      ∧ required c k = true
      ∧ k ∈ attr_names c
      ∧ ∀ j d, i < j → processing_order [Parent; Child; Other] !! j = Some d →
               k ∉ attr_names d.
Proof.
  assert (create_uniq_field_dis_func elements [Parent; Child; Other]
          = Ok (mkUniqResolver [("c", Child); ("p", Parent)] (Some Other)))
    as H by reflexivity.
  split; [exact H|].
  exact (table_invariant elements (λ X, Permutation_refl (elements X)) _ _ H).
Defined.

Lemma builder_returns_iff_witness :
  (2 ≤ length [Parent; Child; Other]
   ∧ length (empty_classes [Parent; Child; Other]) ≤ 1
   ∧ discriminable (processing_order [Parent; Child; Other]) = true)
  ∧ ∃ r, create_uniq_field_dis_func elements [Parent; Child; Other] = Ok r.
Proof.
  assert (2 ≤ length [Parent; Child; Other]
          ∧ length (empty_classes [Parent; Child; Other]) ≤ 1
          ∧ discriminable (processing_order [Parent; Child; Other]) = true)
    as H.
  { split; [simpl; lia|]. split; [vm_compute; lia|vm_compute; reflexivity]. }
  split; [exact H|].
  exact (proj2 (builder_returns_iff elements
                  (λ X, Permutation_refl (elements X)) _) H).
Defined.

Lemma built_attr_sets_differ_witness :
  create_uniq_field_dis_func elements [Parent; Child]
    = Ok (mkUniqResolver [("c", Child)] (Some Parent))
  ∧ NoDup (map attr_names [Parent; Child]) ∧ NoDup [Parent; Child].
Proof.
  assert (create_uniq_field_dis_func elements [Parent; Child]
          = Ok (mkUniqResolver [("c", Child)] (Some Parent))) as H
    by reflexivity.
  split; [exact H|].
  exact (built_attr_sets_differ elements
           (λ X, Permutation_refl (elements X)) _ _ H).
Defined.

(** ** The errors of the structural builder *)

Section BuildErrors.
Variable set_iter : gset string → list string.
Hypothesis set_iter_perm : ∀ X, set_iter X ≡ₚ elements X.

(** The loop raises "no usable unique attributes" at the first class, not
    the last, whose attributes all belong to classes met later. *)
Lemma build_loop_fail_unique (pre : list PyClass) (c : PyClass)
    (post : list PyClass) (st : uniq_resolver) :
  post ≠ [] →
  discriminable_prefix pre (c :: post) = true →
  uniq_fields c post = ∅ →
  build_loop set_iter (map with_attrs (pre ++ c :: post)) st
  = Raise (NoUniqueField c).
Proof.
  intros Hpost Hpre Hu. revert st Hpre.
  induction pre as [|d pre IH]; intros st Hpre.
  - simpl app. rewrite build_loop_step by done.
    by rewrite bool_decide_eq_true_2.
  - simpl in Hpre. apply andb_prop in Hpre as [Hd Hpre].
    change ((d :: pre) ++ c :: post) with (d :: (pre ++ c :: post)).
    rewrite build_loop_step by (by destruct pre).
    apply has_uniq_required_spec in Hd as (a & Hin & Hr).
    case_bool_decide as Hu'; [set_solver|].
    destruct (pick_required_uniq set_iter set_iter_perm d (pre ++ c :: post))
      as [(b & Hb & _ & _)|[_ Hall']].
    + rewrite Hb. simpl. by apply IH.
    + exfalso. eapply required_not_default; [exact Hr|]. by apply Hall'.
Qed.

(** Where and why the loop has raised. *)
Lemma build_loop_raise_inv (cs : list PyClass) (st : uniq_resolver)
    (e : error) :
  build_loop set_iter (map with_attrs cs) st = Raise e →
  ∃ pre c post,
    cs = pre ++ c :: post ∧ post ≠ []
    ∧ discriminable_prefix pre (c :: post) = true
    ∧ ((e = NoUniqueField c ∧ uniq_fields c post = ∅)
       ∨ (e = NoUniqueRequiredField c ∧ uniq_fields c post ≠ ∅
          ∧ ∀ n, n ∈ uniq_fields c post → has_default c n = true)).
Proof.
  revert st. induction cs as [|c cs IH]; intros st Hb; [done|].
  destruct (decide (cs = [])) as [->|Hcs]; [done|].
  rewrite build_loop_step in Hb by done.
  case_bool_decide as Hu.
  - injection Hb as <-. exists [], c, cs. repeat split; try done. by left.
  - destruct (pick_required_uniq set_iter set_iter_perm c cs)
      as [(b & Hb' & Hin & Hr)|[Hp Hall]].
    + rewrite Hb' in Hb. simpl in Hb.
      apply IH in Hb as (pre & c' & post & -> & Hpost & Hpre & He).
      exists (c :: pre), c', post. repeat split; try done.
      simpl. rewrite Hpre, andb_true_r.
      apply has_uniq_required_spec. by exists b.
    + rewrite Hp in Hb. injection Hb as <-.
      exists [], c, cs. repeat split; try done. by right.
Qed.

(** X4. The structural builder raises "... has no usable unique
    attributes" for a class exactly when there are two classes or more, at
    most one of them without attributes, this class is not the last of the
    processing order, all its attributes belong to classes met later, and
    every class met before it has a required attribute that no class met
    later has. *)
Theorem no_unique_field_iff (classes : list PyClass) (c : PyClass) :
  create_uniq_field_dis_func set_iter classes = Raise (NoUniqueField c)
  ↔ 2 ≤ length classes
    ∧ length (empty_classes classes) ≤ 1
    ∧ ∃ pre post,
        processing_order classes = pre ++ c :: post ∧ post ≠ []
        ∧ discriminable_prefix pre (c :: post) = true
        ∧ uniq_fields c post = ∅.
Proof.
  rewrite create_uniq_field_dis_func_unfold. split.
  - destruct (Nat.ltb_spec (length classes) 2); [done|].
    destruct (Nat.ltb_spec 1 (length (empty_classes classes))); [done|].
    intros Hb.
    apply build_loop_raise_inv in Hb
      as (pre & c' & post & Hpo & Hpost & Hpre & [[He Hu]|[He _]]);
      [|done].
    injection He as ->. repeat split; [done|lia|]. by exists pre, post.
  - intros (Hlen & Hemp & pre & post & Hpo & Hpost & Hpre & Hu).
    destruct (Nat.ltb_spec (length classes) 2); [lia|].
    destruct (Nat.ltb_spec 1 (length (empty_classes classes))); [lia|].
    rewrite Hpo. by apply build_loop_fail_unique.
Qed.

(** X5. The structural builder raises "... has no usable non-default
    attributes" for a class exactly when there are two classes or more, at
    most one of them without attributes, this class is not the last of the
    processing order, it has attributes that no class met later has, all of
    them with a default, and every class met before it has a required
    attribute that no class met later has. *)
Theorem no_unique_required_field_iff (classes : list PyClass) (c : PyClass) :
  create_uniq_field_dis_func set_iter classes = Raise (NoUniqueRequiredField c)
  ↔ 2 ≤ length classes
    ∧ length (empty_classes classes) ≤ 1
    ∧ ∃ pre post,
        processing_order classes = pre ++ c :: post ∧ post ≠ []
        ∧ discriminable_prefix pre (c :: post) = true
        ∧ uniq_fields c post ≠ ∅
        ∧ ∀ n, n ∈ uniq_fields c post → has_default c n = true.
Proof.
  rewrite create_uniq_field_dis_func_unfold. split.
  - destruct (Nat.ltb_spec (length classes) 2); [done|].
    destruct (Nat.ltb_spec 1 (length (empty_classes classes))); [done|].
    intros Hb.
    apply build_loop_raise_inv in Hb
      as (pre & c' & post & Hpo & Hpost & Hpre & [[He _]|(He & Hu & Hall)]);
      [done|].
    injection He as ->. repeat split; [done|lia|]. by exists pre, post.
  - intros (Hlen & Hemp & pre & post & Hpo & Hpost & Hpre & Hu & Hall).
    destruct (Nat.ltb_spec (length classes) 2); [lia|].
    destruct (Nat.ltb_spec 1 (length (empty_classes classes))); [lia|].
    rewrite Hpo. by apply (build_loop_fail_at set_iter set_iter_perm).
Qed.

(** X6. The structural builder raises "At least two classes required"
    exactly on the sequences of fewer than two classes, and it raises
    nothing but its four errors; an error on unique attributes names a
    class of the sequence. *)
Theorem builder_errors (classes : list PyClass) :
  (create_uniq_field_dis_func set_iter classes = Raise InsufficientCandidates
   ↔ length classes < 2)
  ∧ ∀ e, create_uniq_field_dis_func set_iter classes = Raise e →
      e = InsufficientCandidates
      ∨ e = MultipleEmptySchemas
      ∨ ∃ c, c ∈ classes ∧ (e = NoUniqueField c ∨ e = NoUniqueRequiredField c).
Proof.
  rewrite create_uniq_field_dis_func_unfold.
  destruct (Nat.ltb_spec (length classes) 2) as [Hlt|Hge].
  { split; [done|]. intros e [= <-]. by left. }
  destruct (Nat.ltb_spec 1 (length (empty_classes classes))).
  { split; [split; [done|lia]|]. intros e [= <-]. right. by left. }
  assert (∀ e, build_loop set_iter (map with_attrs (processing_order classes))
                 empty_resolver = Raise e →
               ∃ c, c ∈ classes
                    ∧ (e = NoUniqueField c ∨ e = NoUniqueRequiredField c))
    as Hkind.
  { intros e Hb.
    apply (build_loop_raise_kind set_iter set_iter_perm) in Hb
      as (c & Hin & He).
    rewrite processing_order_perm in Hin. by exists c. }
  split.
  - split; [|lia]. intros Hb. apply Hkind in Hb as (c & _ & [He|He]); done.
  - intros e Hb. right. right. by apply Hkind.
Qed.
End BuildErrors.

Lemma no_unique_field_iff_witness :
  (2 ≤ length [Child; Base; Sub]
   ∧ length (empty_classes [Child; Base; Sub]) ≤ 1
   ∧ ∃ pre post,
       processing_order [Child; Base; Sub] = pre ++ Base :: post ∧ post ≠ []
       ∧ discriminable_prefix pre (Base :: post) = true
       ∧ uniq_fields Base post = ∅)
  ∧ create_uniq_field_dis_func elements [Child; Base; Sub]
    = Raise (NoUniqueField Base).
Proof.
  assert (2 ≤ length [Child; Base; Sub]
          ∧ length (empty_classes [Child; Base; Sub]) ≤ 1
          ∧ ∃ pre post,
              processing_order [Child; Base; Sub] = pre ++ Base :: post
              ∧ post ≠ []
              ∧ discriminable_prefix pre (Base :: post) = true
              ∧ uniq_fields Base post = ∅) as H.
  { split; [simpl; lia|]. split; [vm_compute; lia|].
    exists [Child], [Sub]. split; [reflexivity|]. split; [discriminate|].
    split; vm_compute; reflexivity. }
  split; [exact H|].
  exact (proj2 (no_unique_field_iff elements
                  (λ X, Permutation_refl (elements X)) _ _) H).
Defined.

Lemma no_unique_required_field_iff_witness :
  create_uniq_field_dis_func elements [Opt; Opt2]
    = Raise (NoUniqueRequiredField Opt)
  ∧ 2 ≤ length [Opt; Opt2]
  ∧ length (empty_classes [Opt; Opt2]) ≤ 1
  ∧ ∃ pre post,
      processing_order [Opt; Opt2] = pre ++ Opt :: post ∧ post ≠ []
      ∧ discriminable_prefix pre (Opt :: post) = true
      ∧ uniq_fields Opt post ≠ ∅
      ∧ ∀ n, n ∈ uniq_fields Opt post → has_default Opt n = true.
Proof.
  assert (create_uniq_field_dis_func elements [Opt; Opt2]
          = Raise (NoUniqueRequiredField Opt)) as H by reflexivity.
  split; [exact H|].
  exact (proj1 (no_unique_required_field_iff elements
                  (λ X, Permutation_refl (elements X)) _ _) H).
Defined.

Lemma builder_errors_witness :
  (create_uniq_field_dis_func elements [Parent] = Raise InsufficientCandidates
   ↔ length [Parent] < 2)
  ∧ ∀ e, create_uniq_field_dis_func elements [Parent] = Raise e →
      e = InsufficientCandidates
      ∨ e = MultipleEmptySchemas
      ∨ ∃ c, c ∈ [Parent]
             ∧ (e = NoUniqueField c ∨ e = NoUniqueRequiredField c).
Proof.
  exact (builder_errors elements (λ X, Permutation_refl (elements X))
           [Parent]).
Defined.

(** ** What the structural resolver answers *)

Lemma scan_Some_inv (d : list (string * PyClass)) (m : gmap string pyobj)
    (v : PyClass) :
  UniqField.scan d m = Some v →
  ∃ i k, d !! i = Some (k, v) ∧ is_Some (m !! k)
         ∧ ∀ j k' v', j < i → d !! j = Some (k', v') → m !! k' = None.
Proof.
  induction d as [|[k w] d IH]; simpl; [done|].
  destruct (m !! k) as [x|] eqn:Hk.
  - intros [= ->]. exists 0, k. split; [done|]. split; [by rewrite Hk|].
    intros j k' v' Hj. lia.
  - intros Hs. destruct (IH Hs) as (i & k0 & Hi & Hm & Hfirst).
    exists (S i), k0. split; [done|]. split; [done|].
    intros j k' v' Hj Hd. destruct j as [|j].
    + simpl in Hd. by injection Hd as <- <-.
    + simpl in Hd. apply (Hfirst j k' v'); [lia|done].
Qed.

Lemma scan_None_inv (d : list (string * PyClass)) (m : gmap string pyobj) :
  UniqField.scan d m = None → ∀ k v, (k, v) ∈ d → m !! k = None.
Proof.
  induction d as [|[k w] d IH]; simpl.
  - by intros _ k v ?%elem_of_nil.
  - destruct (m !! k) as [x|] eqn:Hk; [done|].
    intros Hs k' v' [[= -> ->]|Hin]%elem_of_cons; [done|]. by eapply IH.
Qed.

Lemma scan_recognise (cs : list PyClass) (es : list (string * PyClass))
    (c : PyClass) (m : gmap string pyobj) (U : gset string) :
  entries_of cs es → c ∈ cs →
  required_names c ⊆ dom m →
  (∀ d, d ∈ cs → attr_names d ⊆ U) →
  (∀ k, k ∈ dom m → k ∈ U → k ∈ attr_names c) →
  match UniqField.scan es m with
  | Some v => Some v
  | None => last cs
  end = Some c.
Proof.
  intros Hes. revert c.
  induction Hes as [c0|c0 cs u es Hne Hu Hr Hes IH];
    intros c Hin Hreq HU Hdom.
  - apply list_elem_of_singleton in Hin as ->. done.
  - simpl. unfold uniq_fields in Hu.
    apply elem_of_difference in Hu as [Hu0 Hucs].
    apply elem_of_cons in Hin as [->|Hin].
    + assert (u ∈ dom m) as [x ->]%elem_of_dom; [|done].
      apply Hreq. apply elem_of_filter. by split.
    + assert (m !! u = None) as ->.
      { apply not_elem_of_dom. intros Hm. apply Hucs.
        apply elem_of_union_list. exists (attr_names c). split.
        - apply list_elem_of_fmap. by exists c.
        - apply Hdom; [done|]. apply (HU c0); [left|done]. }
      rewrite last_cons.
      assert (match UniqField.scan es m with
              | Some v => Some v
              | None => last cs
              end = Some c) as IHc.
      { apply IH; try done. intros d Hd. apply HU. by right. }
      destruct (UniqField.scan es m); [done|]. by destruct (last cs).
Qed.

Section Answers.
Variable set_iter : gset string → list string.
Hypothesis set_iter_perm : ∀ X, set_iter X ≡ₚ elements X.

(** X7. Whenever the structural builder returns, a mapping that holds all
    the required attributes of a class of the sequence, and no attribute of
    the other classes that this class does not have, resolves to this class:
    the attributes with a default may be left out, and keys that are
    attributes of no class may be added. *)
Theorem recognises_own_mapping (classes : list PyClass) (r : uniq_resolver)
    (c : PyClass) (m : gmap string pyobj) :
  create_uniq_field_dis_func set_iter classes = Ok r →
  c ∈ classes →
  required_names c ⊆ dom m →
  (∀ k, k ∈ dom m → k ∈ ⋃ (map attr_names classes) → k ∈ attr_names c) →
  UniqField.dis_func r (PyDict m) = Ok (Some c).
Proof.
  intros Hb Hin Hreq Hdom.
  apply (create_uniq_field_dis_func_inv set_iter set_iter_perm) in Hb
    as [Hes Hf].
  pose proof (scan_recognise _ _ c m (⋃ (map attr_names classes)) Hes) as Hs.
  rewrite processing_order_perm in Hs. specialize (Hs Hin Hreq).
  assert (match UniqField.scan (uniq_attrs_dict r) m with
          | Some v => Some v
          | None => last (processing_order classes)
          end = Some c) as Hs'.
  { apply Hs; [|done]. intros d Hd k Hk.
    rewrite processing_order_perm in Hd.
    apply elem_of_union_list. exists (attr_names d). split; [|done].
    apply list_elem_of_fmap. by exists d. }
  simpl. destruct (UniqField.scan (uniq_attrs_dict r) m).
  - by injection Hs' as ->.
  - by rewrite Hf, Hs'.
Qed.

(** X8. The answer of a built structural resolver is the most specific
    match: among the classes whose key of the table is in the mapping, it
    has the largest number of attributes; when no key of the table is in
    the mapping, the answer is the fallback, which has the smallest number
    of attributes of the sequence. *)
Theorem answer_most_specific (classes : list PyClass) (r : uniq_resolver)
    (m : gmap string pyobj) (c : PyClass) :
  create_uniq_field_dis_func set_iter classes = Ok r →
  UniqField.dis_func r (PyDict m) = Ok (Some c) →
  (∀ k d, (k, d) ∈ uniq_attrs_dict r → is_Some (m !! k) →
      size (attr_names d) ≤ size (attr_names c))
  ∧ ((∀ k d, (k, d) ∈ uniq_attrs_dict r → m !! k = None) →
     fallback r = Some c
     ∧ ∀ d, d ∈ classes → size (attr_names c) ≤ size (attr_names d)).
Proof.
  intros Hb Hres.
  apply (create_uniq_field_dis_func_inv set_iter set_iter_perm) in Hb
    as [Hes Hf].
  assert (∀ i j a b, processing_order classes !! i = Some a →
            processing_order classes !! j = Some b → i < j →
            size (attr_names b) ≤ size (attr_names a)) as Hmono.
  { intros i j a b Hi Hj Hij. rewrite processing_order_eq in Hi, Hj.
    pose proof (StronglySorted_lookup _ _ i j a b
                  (sort_by_key_sorted class_key classes) Hi Hj Hij) as Hle.
    unfold key_le, class_key in Hle. lia. }
  simpl in Hres.
  destruct (UniqField.scan (uniq_attrs_dict r) m) as [v|] eqn:Hs.
  - injection Hres as ->.
    apply scan_Some_inv in Hs as (i & k0 & Hi & Hk0 & Hfirst). split.
    + intros k d Hin Hk. apply list_elem_of_lookup in Hin as [j Hj].
      destruct (entries_of_lookup _ _ _ _ _ Hes Hi) as (Hci & _).
      destruct (entries_of_lookup _ _ _ _ _ Hes Hj) as (Hcj & _).
      destruct (Nat.lt_trichotomy i j) as [Hlt|[Heq|Hgt]].
      * by apply (Hmono i j).
      * subst j. rewrite Hci in Hcj. by injection Hcj as ->.
      * rewrite (Hfirst j k d Hgt Hj) in Hk. by destruct Hk.
    + intros Hnone. exfalso.
      rewrite (Hnone k0 c) in Hk0; [by destruct Hk0|].
      by eapply list_elem_of_lookup_2.
  - injection Hres as Hfb. split.
    + intros k d Hin Hk.
      rewrite (scan_None_inv _ _ Hs k d Hin) in Hk. by destruct Hk.
    + intros _. split; [done|]. intros d Hd.
      rewrite Hf in Hfb.
      rewrite <- processing_order_perm in Hd.
      apply list_elem_of_lookup in Hd as [j Hj].
      apply last_Some in Hfb as [l' Hl'].
      assert (processing_order classes !! length l' = Some c) as Hc.
      { rewrite Hl'. by rewrite list_lookup_middle. }
      assert (j < S (length l')) as Hjl.
      { apply lookup_lt_Some in Hj. rewrite Hl', length_app in Hj.
        simpl in Hj. lia. }
      destruct (decide (j = length l')) as [->|Hne].
      * rewrite Hc in Hj. by injection Hj as ->.
      * apply (Hmono j (length l')); [done..|lia].
Qed.

(** X9. A built structural resolver never answers a class on no evidence:
    an answer other than the fallback is the class of a key of the table
    that is in the mapping, a required attribute of this class; the
    fallback is answered only when no key of the table is in the mapping. *)
Theorem answer_backed_by_key (classes : list PyClass) (r : uniq_resolver)
    (m : gmap string pyobj) (c : PyClass) :
  create_uniq_field_dis_func set_iter classes = Ok r →
  UniqField.dis_func r (PyDict m) = Ok (Some c) →
  (∃ k, (k, c) ∈ uniq_attrs_dict r ∧ is_Some (m !! k)
        ∧ required c k = true ∧ k ∈ attr_names c)
  ∨ (fallback r = Some c
     ∧ ∀ k d, (k, d) ∈ uniq_attrs_dict r → m !! k = None).
Proof.
  intros Hb Hres.
  apply (create_uniq_field_dis_func_inv set_iter set_iter_perm) in Hb
    as [Hes Hf].
  simpl in Hres.
  destruct (UniqField.scan (uniq_attrs_dict r) m) as [v|] eqn:Hs.
  - injection Hres as ->. left.
    apply scan_Some_inv in Hs as (i & k & Hi & Hk & _).
    destruct (entries_of_lookup _ _ _ _ _ Hes Hi) as (_ & Hreq & Hin & _).
    exists k. split; [by eapply list_elem_of_lookup_2|done].
  - injection Hres as Hfb. right. split; [done|].
    by apply scan_None_inv.
Qed.

(** X10. The classes a built structural resolver can answer are exactly
    the classes of the sequence: every answer is one of them, and for each
    of them some mapping is resolved to it. *)
Theorem answers_are_the_classes (classes : list PyClass) (r : uniq_resolver)
    (c : PyClass) :
  create_uniq_field_dis_func set_iter classes = Ok r →
  c ∈ classes ↔ ∃ m, UniqField.dis_func r (PyDict m) = Ok (Some c).
Proof.
  intros Hb. split.
  - intros Hin. exists (gset_to_gmap PyNone (attr_names c)).
    apply (resolve_own_fields set_iter set_iter_perm classes); [done..|].
    apply dom_gset_to_gmap.
  - intros [m Hres].
    apply (create_uniq_field_dis_func_inv set_iter set_iter_perm) in Hb
      as [Hes Hf].
    rewrite <- processing_order_perm. simpl in Hres.
    destruct (UniqField.scan (uniq_attrs_dict r) m) as [v|] eqn:Hs.
    + injection Hres as ->. apply scan_value in Hs.
      apply list_elem_of_fmap in Hs as ([k v] & -> & Hin).
      by eapply entries_of_values.
    + injection Hres as Hfb. rewrite Hf in Hfb.
      apply last_Some in Hfb as [l' ->]. apply elem_of_app. right. left.
Qed.
End Answers.

Lemma recognises_own_mapping_witness :
  create_uniq_field_dis_func elements [Sx; C; Empty1]
    = Ok (mkUniqResolver [("x", Sx); ("z", C)] (Some Empty1))
  ∧ Sx ∈ [Sx; C; Empty1]
  ∧ required_names Sx ⊆ dom ({[ "x" := PyInt 1; "note" := PyStr "n" ]}
                              : gmap string pyobj)
  ∧ dom ({[ "x" := PyInt 1; "note" := PyStr "n" ]} : gmap string pyobj)
      ∩ ⋃ (map attr_names [Sx; C; Empty1]) ⊆ attr_names Sx
  ∧ UniqField.dis_func (mkUniqResolver [("x", Sx); ("z", C)] (Some Empty1))
      (PyDict {[ "x" := PyInt 1; "note" := PyStr "n" ]}) = Ok (Some Sx).
Proof.
  assert (create_uniq_field_dis_func elements [Sx; C; Empty1]
          = Ok (mkUniqResolver [("x", Sx); ("z", C)] (Some Empty1))) as H1
    by (vm_compute; reflexivity).
  assert (Sx ∈ [Sx; C; Empty1]) as H2 by left.
  assert (required_names Sx
          ⊆ dom ({[ "x" := PyInt 1; "note" := PyStr "n" ]}
                 : gmap string pyobj)) as H3
    by (apply (bool_decide_unpack _); vm_compute; exact I).
  assert (dom ({[ "x" := PyInt 1; "note" := PyStr "n" ]} : gmap string pyobj)
            ∩ ⋃ (map attr_names [Sx; C; Empty1]) ⊆ attr_names Sx) as H4
    by (apply (bool_decide_unpack _); vm_compute; exact I).
  split; [exact H1|]. split; [exact H2|]. split; [exact H3|].
  split; [exact H4|].
  apply (recognises_own_mapping elements (λ X, Permutation_refl (elements X))
           [Sx; C; Empty1] _ Sx _ H1 H2 H3).
  intros k Hk HU. apply H4. by apply elem_of_intersection.
Defined.

Lemma answer_most_specific_witness :
  create_uniq_field_dis_func elements [Parent; Child; Other]
    = Ok (mkUniqResolver [("c", Child); ("p", Parent)] (Some Other))
  ∧ UniqField.dis_func
      (mkUniqResolver [("c", Child); ("p", Parent)] (Some Other))
      (PyDict {[ "p" := PyInt 1; "c" := PyInt 2 ]}) = Ok (Some Child)
  ∧ (∀ k d, (k, d) ∈ [("c", Child); ("p", Parent)] →
       is_Some (({[ "p" := PyInt 1; "c" := PyInt 2 ]} : gmap string pyobj)
                  !! k) →
       size (attr_names d) ≤ size (attr_names Child)).
Proof.
  assert (create_uniq_field_dis_func elements [Parent; Child; Other]
          = Ok (mkUniqResolver [("c", Child); ("p", Parent)] (Some Other)))
    as H1 by reflexivity.
  assert (UniqField.dis_func
            (mkUniqResolver [("c", Child); ("p", Parent)] (Some Other))
            (PyDict {[ "p" := PyInt 1; "c" := PyInt 2 ]}) = Ok (Some Child))
    as H2 by (vm_compute; reflexivity).
  split; [exact H1|]. split; [exact H2|].
  exact (proj1 (answer_most_specific elements
                  (λ X, Permutation_refl (elements X)) _ _ _ _ H1 H2)).
Defined.

Lemma answer_backed_by_key_witness :
  create_uniq_field_dis_func elements [Parent; Child; Other]
    = Ok (mkUniqResolver [("c", Child); ("p", Parent)] (Some Other))
  ∧ UniqField.dis_func
      (mkUniqResolver [("c", Child); ("p", Parent)] (Some Other))
      (PyDict {[ "p" := PyInt 1 ]}) = Ok (Some Parent)
  ∧ ((∃ k, (k, Parent) ∈ [("c", Child); ("p", Parent)]
           ∧ is_Some (({[ "p" := PyInt 1 ]} : gmap string pyobj) !! k)
           ∧ required Parent k = true ∧ k ∈ attr_names Parent)
     ∨ (Some Other = Some Parent
        ∧ ∀ k d, (k, d) ∈ [("c", Child); ("p", Parent)] →
                 ({[ "p" := PyInt 1 ]} : gmap string pyobj) !! k = None)).
Proof.
  assert (create_uniq_field_dis_func elements [Parent; Child; Other]
          = Ok (mkUniqResolver [("c", Child); ("p", Parent)] (Some Other)))
    as H1 by reflexivity.
  assert (UniqField.dis_func
            (mkUniqResolver [("c", Child); ("p", Parent)] (Some Other))
            (PyDict {[ "p" := PyInt 1 ]}) = Ok (Some Parent))
    as H2 by (vm_compute; reflexivity).
  split; [exact H1|]. split; [exact H2|].
  exact (answer_backed_by_key elements
           (λ X, Permutation_refl (elements X)) _ _ _ _ H1 H2).
Defined.

Lemma answers_are_the_classes_witness :
  create_uniq_field_dis_func elements [Parent; Child; Other]
    = Ok (mkUniqResolver [("c", Child); ("p", Parent)] (Some Other))
  ∧ (Other ∈ [Parent; Child; Other]
     ↔ ∃ m, UniqField.dis_func
              (mkUniqResolver [("c", Child); ("p", Parent)] (Some Other))
              (PyDict m) = Ok (Some Other)).
Proof.
  assert (create_uniq_field_dis_func elements [Parent; Child; Other]
          = Ok (mkUniqResolver [("c", Child); ("p", Parent)] (Some Other)))
    as H1 by reflexivity.
  split; [exact H1|].
  exact (answers_are_the_classes elements
           (λ X, Permutation_refl (elements X)) _ _ Other H1).
Defined.

(** ** The order of the input *)

Lemma filter_key_perm {A : Type} (key : A → Z) (k : Z) (l1 l2 : list A) :
  l1 ≡ₚ l2 → NoDup (map key l1) →
  filter (λ y, key y = k) l1 = filter (λ y, key y = k) l2.
Proof.
  intros Hp Hnd.
  assert (∀ l, NoDup (map key l) → length (filter (λ y, key y = k) l) ≤ 1)
    as Hlen.
  { clear. induction l as [|x l IH]; simpl; [intros; simpl; lia|].
    intros [Hx Hl]%NoDup_cons. rewrite filter_cons. case_decide as Hk.
    - destruct (filter (λ y, key y = k) l) as [|y f] eqn:E; [simpl; lia|].
      exfalso. apply Hx.
      assert (y ∈ filter (λ y, key y = k) l) as Hy by (rewrite E; left).
      apply list_elem_of_filter in Hy as [Hky Hy].
      apply list_elem_of_fmap. exists y. split; [congruence|done].
    - by apply IH. }
  assert (filter (λ y, key y = k) l1 ≡ₚ filter (λ y, key y = k) l2) as Hfp
    by (by rewrite Hp).
  pose proof (Hlen l1 Hnd) as H1.
  assert (NoDup (map key l2)) as Hnd2.
  { eapply NoDup_Permutation_proper; [|exact Hnd].
    apply fmap_Permutation. by symmetry. }
  pose proof (Hlen l2 Hnd2) as H2.
  destruct (filter (λ y, key y = k) l1) as [|a [|a' f1]].
  - by apply Permutation_nil_l in Hfp.
  - by apply Permutation_singleton_l in Hfp.
  - simpl in H1. lia.
Qed.

Lemma sort_by_key_perm_unique {A : Type} (key : A → Z) (l1 l2 : list A) :
  l1 ≡ₚ l2 → NoDup (map key l1) → sort_by_key key l1 = sort_by_key key l2.
Proof.
  intros Hp Hnd. apply (sorted_stable_unique key).
  - apply sort_by_key_sorted.
  - apply sort_by_key_sorted.
  - intros k. rewrite !sort_by_key_stable. by apply filter_key_perm.
Qed.

(** X11. When the classes have pairwise different numbers of attributes,
    the structural builder does not depend on the order in which they are
    given: on two sequences that are permutations of one another it returns
    the same resolver, or raises the same error. *)
Theorem builder_order_irrelevant (set_iter : gset string → list string)
    (classes1 classes2 : list PyClass) :
  classes1 ≡ₚ classes2 →
  NoDup (map (λ c, size (attr_names c)) classes1) →
  processing_order classes1 = processing_order classes2
  ∧ create_uniq_field_dis_func set_iter classes1
    = create_uniq_field_dis_func set_iter classes2.
Proof.
  intros Hp Hnd.
  assert (processing_order classes1 = processing_order classes2) as Hpo.
  { rewrite !processing_order_eq. apply sort_by_key_perm_unique; [done|].
    assert (map class_key classes1
            = (λ n : nat, (- Z.of_nat n)%Z)
                <$> map (λ c, size (attr_names c)) classes1) as ->.
    { unfold class_key. by rewrite <- list_fmap_compose. }
    apply NoDup_fmap_2; [|done]. intros x y Hxy. lia. }
  split; [done|].
  rewrite !create_uniq_field_dis_func_unfold, Hpo.
  by rewrite (Permutation_length Hp), (empty_classes_perm _ _ Hp).
Qed.

Lemma builder_order_irrelevant_witness :
  [Parent; Child; Empty1] ≡ₚ [Empty1; Child; Parent]
  ∧ NoDup (map (λ c, size (attr_names c)) [Parent; Child; Empty1])
  ∧ processing_order [Parent; Child; Empty1]
    = processing_order [Empty1; Child; Parent]
  ∧ create_uniq_field_dis_func elements [Parent; Child; Empty1]
    = create_uniq_field_dis_func elements [Empty1; Child; Parent].
Proof.
  assert ([Parent; Child; Empty1] ≡ₚ [Empty1; Child; Parent]) as H1.
  { symmetry. apply (reverse_Permutation [Parent; Child; Empty1]). }
  assert (NoDup (map (λ c, size (attr_names c)) [Parent; Child; Empty1]))
    as H2.
  { apply (bool_decide_unpack _). vm_compute. exact I. }
  split; [exact H1|]. split; [exact H2|].
  exact (builder_order_irrelevant elements _ _ H1 H2).
Defined.

(** ** The tag-field builder and its resolver *)

Lemma last_named_is_Some (classes : list PyClass) (c : PyClass) :
  c ∈ classes → is_Some (last_named (cls_name c) classes).
Proof.
  intros Hin. destruct (last_named (cls_name c) classes) eqn:Hl; [done|].
  exfalso. by eapply last_named_None.
Qed.

Lemma dom_dict_of_names (classes : list PyClass) :
  dom (dict_of_names classes) = list_to_set (map cls_name classes).
Proof.
  apply set_eq. intros s.
  rewrite elem_of_dom, dict_of_names_lookup, elem_of_list_to_set. split.
  - intros [c Hc]. apply last_named_Some in Hc as [Hin <-].
    apply list_elem_of_fmap. by exists c.
  - intros (c & -> & Hin)%list_elem_of_fmap. by apply last_named_is_Some.
Qed.

(** X12. The tag-field builder raises [IndexError] on the empty sequence
    and returns on every other one; the fallback of the resolver is the
    first class, the names of its table are exactly the names of the
    classes, and each name leads to a class of the sequence that bears
    it. *)
Theorem type_name_builder (classes : list PyClass) (key : string) :
  (classes = [] ↔
   create_type_name_field_dis_func classes key = Raise IndexError)
  ∧ (classes ≠ [] ↔
     ∃ r, create_type_name_field_dis_func classes key = Ok r
          ∧ type_name_key r = key
          ∧ head classes = Some (tn_fallback r)
          ∧ dom (names_to_cl r) = list_to_set (map cls_name classes)
          ∧ (∀ s c, names_to_cl r !! s = Some c →
                    c ∈ classes ∧ cls_name c = s)
          ∧ (∀ c, c ∈ classes → is_Some (names_to_cl r !! cls_name c))).
Proof.
  unfold create_type_name_field_dis_func.
  destruct classes as [|c0 cs] eqn:Hcs.
  - split; [done|]. split; [done|]. by intros (r & Hr & _).
  - rewrite <- Hcs. split; [split; [by rewrite Hcs|done]|].
    split; [|by rewrite Hcs]. intros _.
    eexists. split; [reflexivity|]. simpl.
    split; [done|]. split; [by rewrite Hcs|].
    split; [apply dom_dict_of_names|]. split.
    + intros s c. rewrite dict_of_names_lookup. apply last_named_Some.
    + intros c Hin. rewrite dict_of_names_lookup.
      by apply last_named_is_Some.
Qed.

(** X13. On a mapping, a built tag-field resolver raises [TypeError]
    exactly when the value under the key cannot be hashed (a list or a
    dict), raises nothing else but the error on the missing key, and when it
    returns, its answer is a class of the sequence, never [None]. *)
Theorem type_name_resolver_outcome (classes : list PyClass) (key : string)
    (r : type_name_resolver) (m : gmap string pyobj) :
  create_type_name_field_dis_func classes key = Ok r →
  (TypeNameField.dis_func r (PyDict m) = Raise TypeError
   ↔ ∃ v, m !! key = Some v ∧ hashable v = false)
  ∧ (∀ e, TypeNameField.dis_func r (PyDict m) = Raise e →
          e = TypeError ∨ e = MissingDiscriminator key)
  ∧ (∀ o, TypeNameField.dis_func r (PyDict m) = Ok o →
          ∃ c, o = Some c ∧ c ∈ classes).
Proof.
  unfold create_type_name_field_dis_func.
  destruct classes as [|c0 cs] eqn:Hcs; [done|]. rewrite <- Hcs.
  intros [= <-]. simpl.
  destruct (m !! key) as [v|] eqn:Hm.
  - destruct (hashable v) eqn:Hh.
    + assert (∃ c, c ∈ classes
                ∧ match v with
                  | PyStr s =>
                      match dict_of_names classes !! s with
                      | Some c => Ok (Some c)
                      | None => Ok (Some c0)
                      end
                  | _ => Ok (Some c0)
                  end = Ok (Some c)) as (c & Hin & ->).
      { assert (c0 ∈ classes) as H0 by (rewrite Hcs; left).
        destruct v; try (by exists c0).
        rewrite dict_of_names_lookup.
        destruct (last_named s classes) as [d|] eqn:Hl; [|by exists c0].
        exists d. split; [|done]. by apply last_named_Some in Hl as [? _]. }
      split; [split; [done|]|].
      * intros (v' & [= <-] & Hv'). congruence.
      * split; [done|]. intros o [= <-]. by exists c.
    + split; [split; [by exists v|done]|].
      split; [|done]. intros e [= <-]. by left.
  - split; [split; [done|by intros (v & ? & _)]|].
    split; [|done]. intros e [= <-]. by right.
Qed.

Lemma type_name_resolver_outcome_witness :
  create_type_name_field_dis_func [A; B; C] "type"
    = Ok (mkTypeNameResolver "type" (dict_of_names [A; B; C]) A)
  ∧ (TypeNameField.dis_func
       (mkTypeNameResolver "type" (dict_of_names [A; B; C]) A)
       (PyDict {[ "type" := PyDict ∅ ]}) = Raise TypeError
     ↔ ∃ v, ({[ "type" := PyDict ∅ ]} : gmap string pyobj) !! "type" = Some v
            ∧ hashable v = false).
Proof.
  assert (create_type_name_field_dis_func [A; B; C] "type"
          = Ok (mkTypeNameResolver "type" (dict_of_names [A; B; C]) A))
    as H by reflexivity.
  split; [exact H|].
  exact (proj1 (type_name_resolver_outcome [A; B; C] "type" _
                  {[ "type" := PyDict ∅ ]} H)).
Defined.

Lemma last_named_perm (s : string) (l1 l2 : list PyClass) :
  l1 ≡ₚ l2 → NoDup (map cls_name l1) → last_named s l1 = last_named s l2.
Proof.
  intros Hp Hnd.
  assert (NoDup (map cls_name l2)) as Hnd2.
  { eapply NoDup_Permutation_proper; [|exact Hnd].
    apply fmap_Permutation. by symmetry. }
  destruct (last_named s l1) as [c|] eqn:H1.
  - apply last_named_Some in H1 as [Hin <-].
    rewrite Hp in Hin. symmetry. by apply last_named_NoDup.
  - destruct (last_named s l2) as [d|] eqn:H2; [|done].
    apply last_named_Some in H2 as [Hin Hs]. rewrite <- Hp in Hin.
    by destruct (last_named_None _ _ H1 d Hin).
Qed.

(** X14. When the classes have pairwise different names, the order in
    which they are given to the tag-field builder matters for the fallback
    only: two sequences that are permutations of one another give the same
    table of names, and their resolvers agree on every mapping whose value
    under the key is the name of a class. *)
Theorem type_name_order_irrelevant (classes1 classes2 : list PyClass)
    (key : string) (r1 r2 : type_name_resolver) :
  classes1 ≡ₚ classes2 →
  NoDup (map cls_name classes1) →
  create_type_name_field_dis_func classes1 key = Ok r1 →
  create_type_name_field_dis_func classes2 key = Ok r2 →
  names_to_cl r1 = names_to_cl r2
  ∧ ∀ m c, c ∈ classes1 → m !! key = Some (PyStr (cls_name c)) →
      TypeNameField.dis_func r1 (PyDict m) = Ok (Some c)
      ∧ TypeNameField.dis_func r2 (PyDict m) = Ok (Some c).
Proof.
  intros Hp Hnd. unfold create_type_name_field_dis_func.
  destruct classes1 as [|a1 l1] eqn:H1; [done|]. rewrite <- H1 in *.
  destruct classes2 as [|a2 l2] eqn:H2; [done|]. rewrite <- H2 in *.
  intros [= <-] [= <-]. simpl.
  assert (dict_of_names classes1 = dict_of_names classes2) as Heq.
  { apply map_eq. intros s. rewrite !dict_of_names_lookup.
    by apply last_named_perm. }
  split; [done|]. intros m c Hin Hm. rewrite Hm. simpl.
  rewrite <- Heq, dict_of_names_lookup, last_named_NoDup by done. done.
Qed.

Lemma type_name_order_irrelevant_witness :
  [A; B; C] ≡ₚ [C; B; A]
  ∧ NoDup (map cls_name [A; B; C])
  ∧ names_to_cl (mkTypeNameResolver "type" (dict_of_names [A; B; C]) A)
    = names_to_cl (mkTypeNameResolver "type" (dict_of_names [C; B; A]) C)
  ∧ ∀ m c, c ∈ [A; B; C] → m !! "type" = Some (PyStr (cls_name c)) →
      TypeNameField.dis_func
        (mkTypeNameResolver "type" (dict_of_names [A; B; C]) A) (PyDict m)
      = Ok (Some c)
      ∧ TypeNameField.dis_func
          (mkTypeNameResolver "type" (dict_of_names [C; B; A]) C) (PyDict m)
        = Ok (Some c).
Proof.
  assert ([A; B; C] ≡ₚ [C; B; A]) as H1.
  { symmetry. apply (reverse_Permutation [A; B; C]). }
  assert (NoDup (map cls_name [A; B; C])) as H2.
  { apply (bool_decide_unpack _). vm_compute. exact I. }
  split; [exact H1|]. split; [exact H2|].
  exact (type_name_order_irrelevant [A; B; C] [C; B; A] "type" _ _ H1 H2
           eq_refl eq_refl).
Defined.

Lemma dict_of_names_snoc (classes : list PyClass) (c : PyClass) :
  dict_of_names (classes ++ [c]) = <[cls_name c := c]> (dict_of_names classes).
Proof. unfold dict_of_names. by rewrite fold_left_app. Qed.

(** X15. A class added at the end of the sequence changes the answers of
    the tag-field resolver for its own name only: on every input whose
    value under the key is not this name, the resolver of the longer
    sequence does what the resolver of the shorter one does. *)
Theorem type_name_extension (classes : list PyClass) (c : PyClass)
    (key : string) (r r' : type_name_resolver) (data : pyobj) :
  create_type_name_field_dis_func classes key = Ok r →
  create_type_name_field_dis_func (classes ++ [c]) key = Ok r' →
  (∀ m, data = PyDict m → m !! key ≠ Some (PyStr (cls_name c))) →
  TypeNameField.dis_func r' data = TypeNameField.dis_func r data.
Proof.
  unfold create_type_name_field_dis_func.
  destruct classes as [|c0 cs] eqn:Hcs; [done|]. rewrite <- Hcs.
  intros [= <-]. rewrite Hcs. simpl app. rewrite <- Hcs.
  change (c0 :: cs ++ [c]) with ((c0 :: cs) ++ [c]). rewrite <- Hcs.
  intros [= <-] Hdata.
  destruct data as [| | | | |m]; try done. simpl.
  destruct (m !! key) as [v|] eqn:Hm; [|done].
  destruct (hashable v); [|done].
  destruct v as [| | |s| |]; try done.
  rewrite dict_of_names_snoc, lookup_insert_ne; [done|].
  intros Hs. apply (Hdata m eq_refl). by rewrite Hm, Hs.
Qed.

Lemma type_name_extension_witness :
  create_type_name_field_dis_func [A; B] "type"
    = Ok (mkTypeNameResolver "type" (dict_of_names [A; B]) A)
  ∧ create_type_name_field_dis_func ([A; B] ++ [C]) "type"
    = Ok (mkTypeNameResolver "type" (dict_of_names ([A; B] ++ [C])) A)
  ∧ TypeNameField.dis_func
      (mkTypeNameResolver "type" (dict_of_names ([A; B] ++ [C])) A)
      (PyDict {[ "type" := PyStr "B" ]})
    = TypeNameField.dis_func
        (mkTypeNameResolver "type" (dict_of_names [A; B]) A)
        (PyDict {[ "type" := PyStr "B" ]}).
Proof.
  split; [reflexivity|]. split; [reflexivity|].
  apply (type_name_extension [A; B] C "type"); [reflexivity..|].
  intros m [= <-]. vm_compute. discriminate.
Defined.
